(** * Implied-volatility calculator (Mako_Global/MakoInterviewPack/solution.py)

    A shallow embedding of the [RootFinder] class, of the [Option] class with
    its [Stock] and [Future] subclasses, and of the factory [getProduct].

    Numbers.  The program computes on binary64 values; they are idealised
    here as real numbers, so a statement below is a statement about the
    program in exact arithmetic.  [np.exp], [np.log], [np.sqrt], [norm.pdf]
    and [norm.cdf] are the real exponential, logarithm, square root, and the
    density and distribution function of the standard normal law.

    Undefined operations.  Exact arithmetic has no [inf] and no [nan].  A
    division by zero (Python raises [ZeroDivisionError] on its own floats,
    numpy warns and continues with [inf] or [nan]) is the exceptional
    outcome [ZeroDivisionError]; a logarithm of a non-positive number or a
    square root of a negative one (numpy warns and continues) is the
    exceptional outcome [FloatingPointError], the exception numpy raises
    under [np.seterr(all='raise')].

    Loops.  The two [while] loops have no iteration bound in the source;
    they are functions of a fuel (the number of iterations allowed), and
    [None] is "fuel exhausted".

    numpy scalars.  The exceptional outcomes above are what Python does on
    its own numbers.  Where a property turns on what numpy does instead (a
    zero divisor gives [inf] or [nan] and the run goes on), the code is read
    over the float64 scalars of the section "numpy float64 scalars"; the
    two readings agree wherever no operation is undefined. *)

From Stdlib Require Import Reals Lra Lia String List Bool.
Import ListNotations.
Local Open Scope R_scope.
Local Open Scope string_scope.

(** ** Python outcomes *)

Inductive exn : Type :=
| NameError (msg : string)
| KeyError (key : string)
| TypeError (msg : string)
| UnboundLocalError (var : string)
| ZeroDivisionError
| FloatingPointError.

Inductive result (A : Type) : Type :=
| Ok (a : A)
| Raise (e : exn).

Arguments Ok {A} a.
Arguments Raise {A} e.

Definition bind {A B : Type} (c : result A) (k : A -> result B) : result B :=
  match c with
  | Ok a => k a
  | Raise e => Raise e
  end.

Notation "x <- c ;; k" := (bind c (fun x => k))
  (at level 61, c at next level, right associativity).

(** A call inside a loop: the loop's outcome is [None] when the fuel is
    exhausted, [Some (Raise e)] when an exception escapes, [Some (Ok v)]
    when it returns [v]. *)
Definition bind_loop {A B : Type} (c : result A) (k : A -> option (result B))
  : option (result B) :=
  match c with
  | Ok a => k a
  | Raise e => Some (Raise e)
  end.

Notation "'call' x <- c ;; k" := (bind_loop c (fun x => k))
  (at level 61, x name, c at next level, right associativity).

(** What a root finder returns: a number or the sentinel [np.nan]. *)
Inductive float : Type :=
| Num (x : R)
| NaN.

(** ** Comparisons and arithmetic *)

Definition gtb (x y : R) : bool := if Rlt_dec y x then true else false.
Definition ltb (x y : R) : bool := if Rlt_dec x y then true else false.
Definition geb (x y : R) : bool := if Rle_dec y x then true else false.
Definition leb (x y : R) : bool := if Rle_dec x y then true else false.
Definition eqb (x y : R) : bool := if Req_dec_T x y then true else false.

(** [x / y] in exact arithmetic: a zero divisor is the outcome
    [ZeroDivisionError] (on numpy scalars, see [f64_div]). *)
Definition div (x y : R) : result R :=
  if eqb y 0 then Raise ZeroDivisionError else Ok (x / y).

(** ** numpy and scipy.stats *)

Definition np_exp (x : R) : R := exp x.

(** [np.log] and [np.sqrt] in exact arithmetic: outside their domain they
    are the outcome [FloatingPointError] (numpy's default is to warn and
    return [nan] or [-inf], see [np_sqrt64]). *)
Definition np_log (x : R) : result R :=
  if gtb x 0 then Ok (ln x) else Raise FloatingPointError.

Definition np_sqrt (x : R) : result R :=
  if geb x 0 then Ok (sqrt x) else Raise FloatingPointError.

Definition norm_pdf (x : R) : R := exp (- (x * x) / 2) / sqrt (2 * PI).

Lemma norm_pdf_continuity : continuity norm_pdf.
Proof. unfold norm_pdf. reg. Qed.

(** [norm.cdf x] is 1/2 plus the integral of the density from 0 to [x]. *)
Definition norm_cdf (x : R) : R :=
  1 / 2 +
  match Rle_dec 0 x with
  | left H =>
      RiemannInt (continuity_implies_RiemannInt H
                    (fun t _ => norm_pdf_continuity t))
  | right H =>
      - RiemannInt (continuity_implies_RiemannInt
                      (Rlt_le _ _ (Rnot_le_lt _ _ H))
                      (fun t _ => norm_pdf_continuity t))
  end.

(** ** class RootFinder *)

Inductive method : Type :=
| dekkers
| bisection.

Record RootFinder : Type := mkRootFinder {
  accuracy : R;                      (* desired tolerance *)
  rootFindMethod : option method     (* method to use as root finder *)
}.

(** [RootFinder(accuracy=1e-8)] *)
Definition default_accuracy : R := 1e-8.

Definition RootFinder_init (accuracy : R) : RootFinder :=
  {| accuracy := accuracy; rootFindMethod := None |}.

Definition getRootFindMethod (self : RootFinder) : option method :=
  rootFindMethod self.

(** [setRootFindMethod(rootFinderName="dekkers")]: a lookup in the
    dictionary of the two available methods. *)
Definition default_rootFinderName : string := "dekkers".

Definition setRootFindMethod (self : RootFinder) (rootFinderName : string)
  : result RootFinder :=
  if (rootFinderName =? "dekkers")%string then
    Ok {| accuracy := accuracy self; rootFindMethod := Some dekkers |}
  else if (rootFinderName =? "bisection")%string then
    Ok {| accuracy := accuracy self; rootFindMethod := Some bisection |}
  else Raise (NameError "root finder method not available").

(** The objective handed to a root finder. *)
Definition objective : Type := R -> result R.

(** *** __bisectionMethod

    The loop of lines 43-54.  [c] is the local variable [c]: [None] as long
    as no iteration has assigned it. *)
Fixpoint bisection_loop (fuel : nat) (acc : R) (f : objective)
  (a b : R) (c : option R) : option (result float) :=
  if gtb (Rabs (b - a)) acc then
    match fuel with
    | O => None
    | S fuel' =>
        let c := 0.5 * (a + b) in
        call fc <- f c ;;
        if eqb fc 0 then Some (Ok (Num c))
        else
          call fa <- f a ;;
          call fc' <- f c ;;
          if gtb (fa * fc') 0 then bisection_loop fuel' acc f c b (Some c)
          else bisection_loop fuel' acc f a c (Some c)
    end
  else
    match c with
    | Some c => Some (Ok (Num c))
    | None => Some (Raise (UnboundLocalError "c"))
    end.

Definition bisectionMethod (self : RootFinder) (fuel : nat) (f : objective)
  (a b : R) : option (result float) :=
  call fa <- f a ;;
  call fb <- f b ;;
  if gtb (fa * fb) 0 then Some (Ok NaN)
  else bisection_loop fuel (accuracy self) f a b None.

(** *** __dekkersMethod *)

(** The six locals the loop of lines 80-111 updates. *)
Record dekker_state : Type := mkDekker {
  dk_a : R; dk_fa : R;
  dk_b : R; dk_fb : R;
  dk_c : R; dk_fc : R
}.

(** Lines 83-85: [if fb*fc > 0: c = a; fc = fa]. *)
Definition dekker_reset (s : dekker_state) : dekker_state :=
  if gtb (dk_fb s * dk_fc s) 0 then
    {| dk_a := dk_a s; dk_fa := dk_fa s;
       dk_b := dk_b s; dk_fb := dk_fb s;
       dk_c := dk_a s; dk_fc := dk_fa s |}
  else s.

(** Lines 87-93: the six assignments, in order. *)
Definition dekker_swap (s : dekker_state) : dekker_state :=
  if ltb (Rabs (dk_fc s)) (Rabs (dk_fb s)) then
    let a := dk_b s in
    let fa := dk_fb s in
    let b := dk_c s in
    let fb := dk_fc s in
    let c := a in
    let fc := fa in
    {| dk_a := a; dk_fa := fa; dk_b := b; dk_fb := fb; dk_c := c; dk_fc := fc |}
  else s.

(** Lines 98-103: [p] and [q], with [p] made non-negative. *)
Definition dekker_pq (s : dekker_state) : R * R :=
  let p := (dk_b s - dk_a s) * dk_fb s in
  if geb p 0 then (p, dk_fa s - dk_fb s)
  else (- p, dk_fb s - dk_fa s).

(** Lines 96-111, from the state the two swaps leave. *)
Definition dekker_step (f : objective) (s : dekker_state) : result dekker_state :=
  let m := 0.5 * (dk_b s + dk_c s) in
  let '(p, q) := dekker_pq s in
  let a := dk_b s in
  let fa := dk_fb s in
  if leb p ((m - dk_b s) * q) then
    d <- div p q ;;
    let b := dk_b s + d in
    fb <- f b ;;
    Ok {| dk_a := a; dk_fa := fa; dk_b := b; dk_fb := fb;
          dk_c := dk_c s; dk_fc := dk_fc s |}
  else
    let b := m in
    fb <- f b ;;
    Ok {| dk_a := a; dk_fa := fa; dk_b := b; dk_fb := fb;
          dk_c := dk_c s; dk_fc := dk_fc s |}.

(** One pass through the loop body. *)
Definition dekker_body (f : objective) (s : dekker_state) : result dekker_state :=
  dekker_step f (dekker_swap (dekker_reset s)).

Fixpoint dekker_loop (fuel : nat) (acc : R) (f : objective) (s : dekker_state)
  : option (result float) :=
  if gtb (Rabs (dk_b s - dk_a s)) acc then
    match fuel with
    | O => None
    | S fuel' =>
        call s' <- dekker_body f s ;;
        dekker_loop fuel' acc f s'
    end
  else Some (Ok (Num (dk_b s))).

Definition dekkersMethod (self : RootFinder) (fuel : nat) (f : objective)
  (a b : R) : option (result float) :=
  call fa0 <- f a ;;
  call fb0 <- f b ;;
  if gtb (fa0 * fb0) 0 then Some (Ok NaN)
  else
    call fa <- f a ;;
    call fb <- f b ;;
    dekker_loop fuel (accuracy self) f
      {| dk_a := a; dk_fa := fa; dk_b := b; dk_fb := fb; dk_c := a; dk_fc := fa |}.

(** The bound method [getRootFindMethod()] returns, called on [f], [a], [b]. *)
Definition rootFind_apply (m : method) (self : RootFinder) (fuel : nat)
  (f : objective) (a b : R) : option (result float) :=
  match m with
  | dekkers => dekkersMethod self fuel f a b
  | bisection => bisectionMethod self fuel f a b
  end.

(** Both methods are declared [(self, f, a=0, b=100)]: a call binds the
    positional arguments it is given after [f] and the defaults for the
    rest; more than two is a [TypeError]. *)
Definition rootFind_call (m : method) (self : RootFinder) (fuel : nat)
  (f : objective) (args : list R) : option (result float) :=
  match args with
  | [] => rootFind_apply m self fuel f 0 100
  | [a] => rootFind_apply m self fuel f a 100
  | [a; b] => rootFind_apply m self fuel f a b
  | _ => Some (Raise (TypeError "too many positional arguments"))
  end.

(** ** class Option, with its subclasses Stock and Future *)

(** The class an object was built by. *)
Inductive class : Type :=
| Base       (* Option itself: the four price methods are abstract *)
| Stock
| Future.

Record Option : Type := mkOption {
  self_class : class;
  self_V_mkt : R;                          (* option market price *)
  self_X : R;                              (* underlying spot *)
  self_K : R;                              (* strike *)
  self_tau : R;                            (* time to maturity, in years *)
  self_r : R;                              (* risk-free rate *)
  self_OptionType : string;                (* either "Call" or "Put" *)
  self_ModelType : string;                 (* either "BlackScholes" or "Bachelier" *)
  self_PutCallParityOffset : option R      (* price offset w.r.t. call price *)
}.

(** [Option.__init__]: [tau] is a number of days. *)
Definition Option_init (cls : class) (V_mkt X K tau r : R)
  (OptionType ModelType : string) : Option :=
  {| self_class := cls;
     self_V_mkt := V_mkt;
     self_X := X;
     self_K := K;
     self_tau := tau / 365;
     self_r := r;
     self_OptionType := OptionType;
     self_ModelType := ModelType;
     self_PutCallParityOffset := None |}.

Definition getOptionType (self : Option) : string := self_OptionType self.
Definition getModelType (self : Option) : string := self_ModelType self.
Definition getPutCallParityOffset (self : Option) : option R :=
  self_PutCallParityOffset self.

Definition setPutCallParityOffset (self : Option) (value : R) : Option :=
  {| self_class := self_class self;
     self_V_mkt := self_V_mkt self;
     self_X := self_X self;
     self_K := self_K self;
     self_tau := self_tau self;
     self_r := self_r self;
     self_OptionType := self_OptionType self;
     self_ModelType := self_ModelType self;
     self_PutCallParityOffset := Some value |}.

(** [Stock.__init__] *)
Definition Stock_init (V_mkt X K tau r : R) (OptionType ModelType : string)
  : Option :=
  setPutCallParityOffset
    (Option_init Stock V_mkt X K tau r OptionType ModelType)
    (K * np_exp (- r * tau) - X).

(** [Future.__init__] *)
Definition Future_init (V_mkt X K tau r : R) (OptionType ModelType : string)
  : Option :=
  setPutCallParityOffset
    (Option_init Future V_mkt X K tau r OptionType ModelType)
    ((K - X) * np_exp (- r * tau)).

(** The abstract methods of [Option] are declared [(self)]: called on a
    volatility they fail on the argument count. *)
Definition abstract_method : result R :=
  Raise (TypeError "takes 1 positional argument but 2 were given").

(** [V_call + self.getPutCallParityOffset()] *)
Definition add_offset (V_call : R) (offset : option R) : result R :=
  match offset with
  | Some o => Ok (V_call + o)
  | None => Raise (TypeError "unsupported operand type(s) for +")
  end.

(** Call - BS *)
Definition callOptionPriceBlackScholes (self : Option) (sigma : R) : result R :=
  match self_class self with
  | Base => abstract_method
  | Stock =>
      xk <- div (self_X self) (self_K self) ;;
      l <- np_log xk ;;
      st <- np_sqrt (self_tau self) ;;
      d1 <- div (l + (self_r self + 0.5 * sigma ^ 2) * self_tau self) (sigma * st) ;;
      let d2 := d1 - sigma * st in
      Ok (self_X self * norm_cdf d1
          - np_exp (- self_r self * self_tau self) * self_K self * norm_cdf d2)
  | Future =>
      xk <- div (self_X self) (self_K self) ;;
      l <- np_log xk ;;
      st <- np_sqrt (self_tau self) ;;
      d1 <- div (l + 0.5 * sigma ^ 2 * self_tau self) (sigma * st) ;;
      let d2 := d1 - sigma * st in
      Ok (np_exp (- self_r self * self_tau self)
          * (self_X self * norm_cdf d1 - self_K self * norm_cdf d2))
  end.

(** Put - BS *)
Definition putOptionPriceBlackScholes (self : Option) (sigma : R) : result R :=
  match self_class self with
  | Base => abstract_method
  | Stock | Future =>
      V_call <- callOptionPriceBlackScholes self sigma ;;
      add_offset V_call (getPutCallParityOffset self)
  end.

(** Call - Bachelier *)
Definition callOptionPriceBachelier (self : Option) (sigma : R) : result R :=
  match self_class self with
  | Base => abstract_method
  | Stock =>
      let K_star := self_K self * np_exp (- self_r self * self_tau self) in
      s2r <- div (sigma ^ 2) (self_r self) ;;
      let v_tT := 0.5 * s2r * (1 - np_exp (- 2 * self_r self * self_tau self)) in
      d <- div (self_X self - K_star) v_tT ;;
      Ok ((self_X self - K_star) * norm_cdf d + v_tT * norm_pdf d)
  | Future =>
      st <- np_sqrt (self_tau self) ;;
      d <- div (self_X self - self_K self) (sigma * st) ;;
      Ok ((self_X self - self_K self) * norm_cdf d + sigma * st * norm_pdf d)
  end.

(** Put - Bachelier *)
Definition putOptionPriceBachelier (self : Option) (sigma : R) : result R :=
  match self_class self with
  | Base => abstract_method
  | Stock | Future =>
      V_call <- callOptionPriceBachelier self sigma ;;
      add_offset V_call (getPutCallParityOffset self)
  end.

(** [getOptionPrice]: the price method the model and option types select. *)
Definition getOptionPrice (self : Option) : result (R -> result R) :=
  if (getModelType self =? "BlackScholes")%string then
    if (getOptionType self =? "Call")%string then
      Ok (callOptionPriceBlackScholes self)
    else if (getOptionType self =? "Put")%string then
      Ok (putOptionPriceBlackScholes self)
    else Raise (NameError "Option Type not recognized")
  else if (getModelType self =? "Bachelier")%string then
    if (getOptionType self =? "Call")%string then
      Ok (callOptionPriceBachelier self)
    else if (getOptionType self =? "Put")%string then
      Ok (putOptionPriceBachelier self)
    else Raise (NameError "Option Type not recognized")
  else Raise (NameError "Model Type not supported").

(** The lambda of [impliedVol]: distance between model and market. *)
Definition modelMisPrice (self : Option) : objective :=
  fun x =>
    price <- getOptionPrice self ;;
    V <- price x ;;
    Ok (V - self_V_mkt self).

(** [impliedVol(self, rootFind)] *)
Definition impliedVol (self : Option) (rootFind : RootFinder) (fuel : nat)
  : option (result float) :=
  match getRootFindMethod rootFind with
  | None => Some (Raise (TypeError "'NoneType' object is not callable"))
  | Some m => rootFind_call m rootFind fuel (modelMisPrice self) []
  end.

(** A call [option.impliedVol(rootFind, *more)]: the method is declared
    [(self, rootFind)], so any further positional argument is a
    [TypeError]. *)
Definition impliedVol_call (self : Option) (rootFind : RootFinder)
  (more : list R) (fuel : nat) : option (result float) :=
  match more with
  | [] => impliedVol self rootFind fuel
  | _ => Some (Raise (TypeError "too many positional arguments"))
  end.

(** [getProduct(product, V_mkt, X, K, tau, r, OptionType, ModelType)]: both
    objects are built, then the dictionary is indexed by [product]. *)
Definition getProduct (product : string) (V_mkt X K tau r : R)
  (OptionType ModelType : string) : result Option :=
  let stock := Stock_init V_mkt X K tau r OptionType ModelType in
  let future := Future_init V_mkt X K tau r OptionType ModelType in
  if (product =? "Stock")%string then Ok stock
  else if (product =? "Future")%string then Ok future
  else Raise (KeyError product).

(** ** The solve the specification describes

    [solveImpliedVol(option, rootFinder, bracketLow=0, bracketHigh=100)], as
    the specification words it: the objective is the mispricing and the
    method of [rootFinder] is run on the bracket the caller passes. *)
Definition solveImpliedVol_spec (opt : Option) (rootFinder : RootFinder)
  (bracketLow bracketHigh : R) (fuel : nat) : option (result float) :=
  match getRootFindMethod rootFinder with
  | None => Some (Raise (TypeError "'NoneType' object is not callable"))
  | Some m =>
      rootFind_apply m rootFinder fuel (modelMisPrice opt) bracketLow bracketHigh
  end.

(** The parity offset the specification tabulates, over the stored time to
    expiry [tau] (in years). *)
Definition parityOffset_spec (self : Option) : R :=
  match self_class self with
  | Future => (self_K self - self_X self) * exp (- self_r self * self_tau self)
  | _ => self_K self * exp (- self_r self * self_tau self) - self_X self
  end.

(** [x] lies within the interval of end points [u] and [v], whichever is
    the smaller. *)
Definition within (u v x : R) : Prop := Rmin u v <= x <= Rmax u v.

(** The secant point through [(a, fa)] and [(b, fb)]. *)
Definition secant (a fa b fb : R) : R := b - fb * (b - a) / (fb - fa).

(** One iteration of Dekker's method, in the specification's words: [m]
    is the bisection midpoint of [b] and [c], [dekker_secant] the secant
    point of [(a, fa)] and [(b, fb)], and [dekker_next f s y] makes [b] the
    new [a], moves [b] to the accepted point [y] and evaluates [f] there. *)
Definition dekker_mid (s : dekker_state) : R := (dk_b s + dk_c s) / 2.

Definition dekker_secant (s : dekker_state) : R :=
  secant (dk_a s) (dk_fa s) (dk_b s) (dk_fb s).

Definition dekker_next (f : objective) (s : dekker_state) (y : R)
  : result dekker_state :=
  fb <- f y ;;
  Ok {| dk_a := dk_b s; dk_fa := dk_fb s; dk_b := y; dk_fb := fb;
        dk_c := dk_c s; dk_fc := dk_fc s |}.

(** A run of the bisection of [g] from the bracket [(a, b)] to the value
    [c] it returns, as the specification describes it: the midpoint is
    returned when [g] vanishes there; otherwise the half the sign of
    [g a * g c] selects is kept, and the midpoint is returned once the kept
    half is no wider than the tolerance. *)
Inductive bisection_run (g : R -> R) (tol : R) : R -> R -> R -> Prop :=
| run_root a b :
    Rabs (b - a) > tol -> g ((a + b) / 2) = 0 ->
    bisection_run g tol a b ((a + b) / 2)
| run_upper_last a b :
    Rabs (b - a) > tol -> g ((a + b) / 2) <> 0 ->
    g a * g ((a + b) / 2) > 0 -> Rabs (b - (a + b) / 2) <= tol ->
    bisection_run g tol a b ((a + b) / 2)
| run_lower_last a b :
    Rabs (b - a) > tol -> g ((a + b) / 2) <> 0 ->
    g a * g ((a + b) / 2) <= 0 -> Rabs ((a + b) / 2 - a) <= tol ->
    bisection_run g tol a b ((a + b) / 2)
| run_upper a b c :
    Rabs (b - a) > tol -> g ((a + b) / 2) <> 0 ->
    g a * g ((a + b) / 2) > 0 ->
    bisection_run g tol ((a + b) / 2) b c ->
    bisection_run g tol a b c
| run_lower a b c :
    Rabs (b - a) > tol -> g ((a + b) / 2) <> 0 ->
    g a * g ((a + b) / 2) <= 0 ->
    bisection_run g tol a ((a + b) / 2) c ->
    bisection_run g tol a b c.

(** The put method [putPrice] and the call method [callPrice] of [self] at
    [sigma]: when the call price is defined, so is the put price, and their
    difference is the stored offset; when the call raises, so does the put. *)
Definition parity (callPrice putPrice : Option -> R -> result R)
  (self : Option) (sigma : R) : Prop :=
  match callPrice self sigma with
  | Ok V_call =>
      exists V_put : R,
        putPrice self sigma = Ok V_put /\
        getPutCallParityOffset self = Some (V_put - V_call)
  | Raise e => putPrice self sigma = Raise e
  end.

(** The exceptions of the arithmetic: a division by zero, a logarithm or a
    square root outside its domain. *)
Definition arithmetic (e : exn) : Prop :=
  e = ZeroDivisionError \/ e = FloatingPointError.

(** What Dekker's loop keeps true of its six locals, for a total objective
    [g] and a bracket [[lo, hi]]: the three points lie in the bracket, the
    three values are those of [g] at the points, and [g] does not have the
    same sign at [b] and at one of [a], [c]. *)
Definition dekker_inv (g : R -> R) (lo hi : R) (s : dekker_state) : Prop :=
  lo <= dk_a s <= hi /\ lo <= dk_b s <= hi /\ lo <= dk_c s <= hi /\
  dk_fa s = g (dk_a s) /\ dk_fb s = g (dk_b s) /\ dk_fc s = g (dk_c s) /\
  (dk_fb s * dk_fc s <= 0 \/ dk_fb s * dk_fa s <= 0).

(** ** Alpima/Question1/question1.py: same_timeseries

    A series is the list of its [values]; an entry is a number or [nan]. *)

(** [x - y] on two entries. *)
Definition float_sub (x y : float) : float :=
  match x, y with
  | Num u, Num v => Num (u - v)
  | _, _ => NaN
  end.

(** [ts1.values - ts2.values], on arrays of one length. *)
Definition values_sub (v1 v2 : list float) : list float :=
  map (fun xy => float_sub (fst xy) (snd xy)) (combine v1 v2).

(** [np.nansum]: the sum of the entries that are numbers. *)
Fixpoint np_nansum (v : list float) : R :=
  match v with
  | [] => 0
  | Num u :: v' => u + np_nansum v'
  | NaN :: v' => np_nansum v'
  end.

Definition same_timeseries (ts1 ts2 : list float) : bool :=
  if Nat.eqb (length ts1) (length ts2) then
    ltb (np_nansum (values_sub ts1 ts2)) 1e-5
  else false.

(** [x] is not above [y], where both are numbers. *)
Definition not_above (x y : float) : Prop :=
  match x, y with
  | Num u, Num v => u <= v
  | _, _ => True
  end.

(** The [values] of a series are an array of one dtype: float64, or int64
    (a series without missing entries read from whole numbers), whose
    arithmetic wraps around.  [same_timeseries] above is the float64 case. *)
Inductive ndarray : Type :=
| Float64Array (v : list float)
| Int64Array (v : list Z).

Definition wrap_int64 (z : Z) : Z := ((z + 2 ^ 63) mod 2 ^ 64 - 2 ^ 63)%Z.

Definition int64_sub (v1 v2 : list Z) : list Z :=
  map (fun xy => wrap_int64 (fst xy - snd xy)) (combine v1 v2).

Fixpoint int64_sum (v : list Z) : Z :=
  match v with
  | [] => 0%Z
  | x :: v' => wrap_int64 (x + int64_sum v')
  end.

(** An int64 array converted to float64, as a subtraction from or by a
    float64 array converts it. *)
Definition to_float64 (v : list Z) : list float := map (fun z => Num (IZR z)) v.

(** [same_timeseries], by the dtype of the two arrays of values. *)
Definition same_timeseries_values (ts1 ts2 : ndarray) : bool :=
  match ts1, ts2 with
  | Float64Array v1, Float64Array v2 => same_timeseries v1 v2
  | Int64Array v1, Int64Array v2 =>
      if Nat.eqb (length v1) (length v2) then
        ltb (IZR (int64_sum (int64_sub v1 v2))) 1e-5
      else false
  | Int64Array v1, Float64Array v2 => same_timeseries (to_float64 v1) v2
  | Float64Array v1, Int64Array v2 => same_timeseries v1 (to_float64 v2)
  end.

(** ** numpy float64 scalars

    Where an operand is a numpy scalar ([np.sqrt], [np.exp], [norm.cdf]
    and [norm.pdf] return one, and an operation with one gives one) a zero
    divisor raises nothing: the result is [inf], [-inf] or [nan], and
    [nan] compares false with everything.  The values below are the
    float64 scalars in exact arithmetic: a real number, the two infinities
    and [nan].  Zero carries no sign: a zero divisor is read as [+0.0],
    which is what [0 * np.sqrt(tau)] is. *)

Inductive float64 : Type :=
| Fin (x : R)
| PInf
| NInf
| Nan.

(** [- x] *)
Definition f64_neg (x : float64) : float64 :=
  match x with
  | Fin u => Fin (- u)
  | PInf => NInf
  | NInf => PInf
  | Nan => Nan
  end.

(** [x + y] *)
Definition f64_add (x y : float64) : float64 :=
  match x, y with
  | Nan, _ | _, Nan => Nan
  | Fin u, Fin v => Fin (u + v)
  | PInf, NInf | NInf, PInf => Nan
  | PInf, _ | _, PInf => PInf
  | NInf, _ | _, NInf => NInf
  end.

(** [x - y] *)
Definition f64_sub (x y : float64) : float64 := f64_add x (f64_neg y).

(** An infinity of the sign of [u] times [inf] or [-inf]; [nan] at zero. *)
Definition f64_scale (u : R) (positive : bool) : float64 :=
  if eqb u 0 then Nan
  else if Bool.eqb (gtb u 0) positive then PInf else NInf.

(** [x * y] *)
Definition f64_mul (x y : float64) : float64 :=
  match x, y with
  | Nan, _ | _, Nan => Nan
  | Fin u, Fin v => Fin (u * v)
  | Fin u, PInf | PInf, Fin u => f64_scale u true
  | Fin u, NInf | NInf, Fin u => f64_scale u false
  | PInf, PInf | NInf, NInf => PInf
  | PInf, NInf | NInf, PInf => NInf
  end.

(** [x / y], one operand at least a numpy scalar *)
Definition f64_div (x y : float64) : float64 :=
  match x, y with
  | Nan, _ | _, Nan => Nan
  | Fin u, Fin v =>
      if eqb v 0 then f64_scale u true else Fin (u / v)
  | Fin _, PInf | Fin _, NInf => Fin 0
  | PInf, Fin v => if geb v 0 then PInf else NInf
  | NInf, Fin v => if geb v 0 then NInf else PInf
  | PInf, PInf | PInf, NInf | NInf, PInf | NInf, NInf => Nan
  end.

(** [x > y] *)
Definition f64_gt (x y : float64) : bool :=
  match x, y with
  | Nan, _ | _, Nan => false
  | Fin u, Fin v => gtb u v
  | PInf, PInf => false
  | PInf, _ => true
  | _, PInf => false
  | NInf, _ => false
  | Fin _, NInf => true
  end.

(** [x == y] *)
Definition f64_eq (x y : float64) : bool :=
  match x, y with
  | Fin u, Fin v => eqb u v
  | PInf, PInf | NInf, NInf => true
  | _, _ => false
  end.

(** [np.sqrt], [norm.cdf] and [norm.pdf] on these values *)
Definition np_sqrt64 (x : float64) : float64 :=
  match x with
  | Fin u => if geb u 0 then Fin (sqrt u) else Nan
  | PInf => PInf
  | NInf | Nan => Nan
  end.

Definition norm_cdf64 (x : float64) : float64 :=
  match x with
  | Fin u => Fin (norm_cdf u)
  | PInf => Fin 1
  | NInf => Fin 0
  | Nan => Nan
  end.

Definition norm_pdf64 (x : float64) : float64 :=
  match x with
  | Fin u => Fin (norm_pdf u)
  | PInf | NInf => Fin 0
  | Nan => Nan
  end.

(** An objective whose values are float64 scalars, as the mispricing of an
    option is. *)
Definition objective64 : Type := R -> float64.

(** [__bisectionMethod] on such an objective: the same lines 40-54, with
    the comparisons of lines 40, 47 and 50 made on float64 scalars. *)
Fixpoint bisection_loop64 (fuel : nat) (acc : R) (f : objective64)
  (a b : R) (c : option R) : option (result float) :=
  if gtb (Rabs (b - a)) acc then
    match fuel with
    | O => None
    | S fuel' =>
        let c := 0.5 * (a + b) in
        if f64_eq (f c) (Fin 0) then Some (Ok (Num c))
        else if f64_gt (f64_mul (f a) (f c)) (Fin 0) then
          bisection_loop64 fuel' acc f c b (Some c)
        else bisection_loop64 fuel' acc f a c (Some c)
    end
  else
    match c with
    | Some c => Some (Ok (Num c))
    | None => Some (Raise (UnboundLocalError "c"))
    end.

Definition bisectionMethod64 (self : RootFinder) (fuel : nat) (f : objective64)
  (a b : R) : option (result float) :=
  if f64_gt (f64_mul (f a) (f b)) (Fin 0) then Some (Ok NaN)
  else bisection_loop64 fuel (accuracy self) f a b None.

(** [Future.callOptionPriceBachelier] (lines 328-330) at a finite [sigma],
    in float64 arithmetic: [np.sqrt(self.tau)] is a numpy scalar, and so is
    everything computed from it. *)
Definition Future_callOptionPriceBachelier64 (self : Option) (sigma : R) : float64 :=
  let st := np_sqrt64 (Fin (self_tau self)) in
  let d := f64_div (Fin (self_X self - self_K self)) (f64_mul (Fin sigma) st) in
  f64_add (f64_mul (Fin (self_X self - self_K self)) (norm_cdf64 d))
          (f64_mul (f64_mul (Fin sigma) st) (norm_pdf64 d)).

(** The lambda of [impliedVol] (line 197) for a Future whose option type
    is "Call" and whose model type is "Bachelier". *)
Definition Future_Bachelier_call_misPrice64 (self : Option) : objective64 :=
  fun x => f64_sub (Future_callOptionPriceBachelier64 self x) (Fin (self_V_mkt self)).

(** * Properties *)

(** ** Comparisons *)

Lemma gtb_true (x y : R) : y < x -> gtb x y = true.
Proof. intros H. unfold gtb. destruct (Rlt_dec y x); [reflexivity | contradiction]. Qed.

Lemma gtb_false (x y : R) : x <= y -> gtb x y = false.
Proof. intros H. unfold gtb. destruct (Rlt_dec y x); [lra | reflexivity]. Qed.

Lemma ltb_true (x y : R) : x < y -> ltb x y = true.
Proof. intros H. unfold ltb. destruct (Rlt_dec x y); [reflexivity | contradiction]. Qed.

Lemma ltb_false (x y : R) : y <= x -> ltb x y = false.
Proof. intros H. unfold ltb. destruct (Rlt_dec x y); [lra | reflexivity]. Qed.

Lemma geb_true (x y : R) : y <= x -> geb x y = true.
Proof. intros H. unfold geb. destruct (Rle_dec y x); [reflexivity | contradiction]. Qed.

Lemma geb_false (x y : R) : x < y -> geb x y = false.
Proof. intros H. unfold geb. destruct (Rle_dec y x); [lra | reflexivity]. Qed.

Lemma leb_true (x y : R) : x <= y -> leb x y = true.
Proof. intros H. unfold leb. destruct (Rle_dec x y); [reflexivity | contradiction]. Qed.

Lemma leb_false (x y : R) : y < x -> leb x y = false.
Proof. intros H. unfold leb. destruct (Rle_dec x y); [lra | reflexivity]. Qed.

Lemma eqb_true (x y : R) : x = y -> eqb x y = true.
Proof. intros H. unfold eqb. destruct (Req_dec_T x y); [reflexivity | contradiction]. Qed.

Lemma eqb_false (x y : R) : x <> y -> eqb x y = false.
Proof. intros H. unfold eqb. destruct (Req_dec_T x y); [contradiction | reflexivity]. Qed.

Lemma div_ok (x y : R) : y <> 0 -> div x y = Ok (x / y).
Proof. intros H. unfold div. now rewrite eqb_false. Qed.

Lemma div_zero (x : R) : div x 0 = Raise ZeroDivisionError.
Proof. unfold div. now rewrite eqb_true. Qed.

Lemma np_sqrt_ok (x : R) : 0 <= x -> np_sqrt x = Ok (sqrt x).
Proof. intros H. unfold np_sqrt. now rewrite geb_true. Qed.

Lemma np_log_ok (x : R) : 0 < x -> np_log x = Ok (ln x).
Proof. intros H. unfold np_log. now rewrite gtb_true. Qed.

(** Settles one comparison whose outcome linear arithmetic decides. *)
Ltac compare_step :=
  first
    [ rewrite gtb_true by lra | rewrite gtb_false by lra
    | rewrite ltb_true by lra | rewrite ltb_false by lra
    | rewrite geb_true by lra | rewrite geb_false by lra
    | rewrite leb_true by lra | rewrite leb_false by lra
    | rewrite eqb_true by lra | rewrite eqb_false by lra ].

Ltac compare := repeat (compare_step; cbn [bind bind_loop]).

(** Evaluation of a run over concrete real numbers. *)
Ltac abs_step :=
  match goal with
  | |- context [Rabs ?e] =>
      first [ rewrite (Rabs_pos_eq e) by lra | rewrite (Rabs_left1 e) by lra ]
  end.

Ltac run_step :=
  first [ abs_step | compare_step | rewrite div_ok by lra ];
  cbn [bind bind_loop dk_a dk_fa dk_b dk_fb dk_c dk_fc fst snd].

Ltac bisect_step :=
  cbn [bisection_loop bind_loop];
  first [ abs_step | compare_step ].

Lemma Rabs_zero_width : Rabs (0 - 0) = 0.
Proof. replace (0 - 0) with 0 by ring. apply Rabs_R0. Qed.

(** ** RootFinder: configuration *)

Example setRootFindMethod_default :
  setRootFindMethod (RootFinder_init default_accuracy) default_rootFinderName
  = Ok (mkRootFinder default_accuracy (Some dekkers)).
Proof. reflexivity. Qed.

Example setRootFindMethod_unknown :
  setRootFindMethod (RootFinder_init default_accuracy) "newton"
  = Raise (NameError "root finder method not available").
Proof. reflexivity. Qed.

(** ** RootFinder: the sign check *)

(** C4.  When the objective has values [fa] and [fb] at the ends of the
    bracket and [fa * fb > 0], the bisection method and Dekker's method
    both return the sentinel [np.nan], whatever the fuel: no exception is
    raised and no loop is entered. *)
Theorem no_sign_change_returns_nan :
  forall (self : RootFinder) (fuel : nat) (f : objective) (a b fa fb : R),
    f a = Ok fa -> f b = Ok fb -> fa * fb > 0 ->
    bisectionMethod self fuel f a b = Some (Ok NaN) /\
    dekkersMethod self fuel f a b = Some (Ok NaN).
Proof.
  intros self fuel f a b fa fb Ha Hb Hsign.
  unfold bisectionMethod, dekkersMethod.
  rewrite Ha, Hb. cbn [bind_loop].
  rewrite gtb_true by lra. split; reflexivity.
Qed.

Lemma no_sign_change_returns_nan_witness :
  bisectionMethod (RootFinder_init default_accuracy) 0 (fun x => Ok x) 1 2
    = Some (Ok NaN) /\
  dekkersMethod (RootFinder_init default_accuracy) 0 (fun x => Ok x) 1 2
    = Some (Ok NaN).
Proof.
  apply (no_sign_change_returns_nan
           (RootFinder_init default_accuracy) 0 (fun x => Ok x) 1 2 1 2);
    [reflexivity | reflexivity | lra].
Defined.

(** ** RootFinder: bisection *)

(** [f(x) = x - 1] over [0, 4] with tolerance 1: the second midpoint is
    the root, returned at once. *)
Example bisection_exact_root :
  bisectionMethod (mkRootFinder 1 (Some bisection)) 2 (fun x => Ok (x - 1)) 0 4
  = Some (Ok (Num 1)).
Proof.
  unfold bisectionMethod. cbn [bind_loop accuracy]. compare.
  repeat bisect_step. do 3 f_equal. lra.
Qed.

(** [f(x) = x - 2.5] over [0, 4] with tolerance 1: the bracket becomes
    [2, 4], then [2, 3], and the last midpoint 3 is returned. *)
Example bisection_last_midpoint :
  bisectionMethod (mkRootFinder 1 (Some bisection)) 2 (fun x => Ok (x - 2.5)) 0 4
  = Some (Ok (Num 3)).
Proof.
  unfold bisectionMethod. cbn [bind_loop accuracy]. compare.
  repeat bisect_step. cbn [bisection_loop]. do 3 f_equal. lra.
Qed.

(** A bracket no wider than the tolerance: the loop body never runs, and
    [return c] reads a local that was never assigned. *)
Lemma bisection_narrow_bracket :
  forall (self : RootFinder) (fuel : nat) (f : objective) (a b fa fb : R),
    f a = Ok fa -> f b = Ok fb -> fa * fb <= 0 ->
    Rabs (b - a) <= accuracy self ->
    bisectionMethod self fuel f a b = Some (Raise (UnboundLocalError "c")).
Proof.
  intros self fuel f a b fa fb Ha Hb Hsign Hwidth.
  unfold bisectionMethod. rewrite Ha, Hb. cbn [bind_loop].
  rewrite gtb_false by lra.
  destruct fuel; cbn [bisection_loop]; rewrite gtb_false by lra; reflexivity.
Qed.

(** C5, at the bracket [a = b = 0] with the objective [f(x) = x] and the
    default tolerance: [f(a) * f(b) = 0] passes the sign check, the loop
    condition fails at once, and the method raises [UnboundLocalError]
    where the claim has it return a midpoint. *)
Theorem bisection_zero_width_raises :
  forall fuel : nat,
    bisectionMethod (RootFinder_init default_accuracy) fuel (fun x => Ok x) 0 0
    = Some (Raise (UnboundLocalError "c")).
Proof.
  intros fuel.
  apply (bisection_narrow_bracket _ fuel (fun x => Ok x) 0 0 0 0);
    try reflexivity.
  - lra.
  - rewrite Rabs_zero_width. unfold default_accuracy. cbn [accuracy RootFinder_init]. lra.
Qed.

Lemma pow2_unbounded (x : R) : exists n : nat, x <= 2 ^ n.
Proof.
  assert (H2 : Rabs 2 > 1) by (rewrite Rabs_pos_eq; lra).
  destruct (Pow_x_infinity 2 H2 x) as [N HN].
  exists N. specialize (HN N (Nat.le_refl N)).
  rewrite Rabs_pos_eq in HN by (apply pow_le; lra). lra.
Qed.

Lemma half_width_upper (a b : R) : Rabs (b - (a + b) / 2) = Rabs (b - a) / 2.
Proof.
  replace (b - (a + b) / 2) with ((b - a) * / 2) by field.
  rewrite Rabs_mult, (Rabs_pos_eq (/ 2)) by lra. reflexivity.
Qed.

Lemma half_width_lower (a b : R) : Rabs ((a + b) / 2 - a) = Rabs (b - a) / 2.
Proof.
  replace ((a + b) / 2 - a) with ((b - a) * / 2) by field.
  rewrite Rabs_mult, (Rabs_pos_eq (/ 2)) by lra. reflexivity.
Qed.

(** A loop entered on a bracket no wider than the tolerance returns the
    last midpoint, whatever the fuel. *)
Lemma bisection_loop_exit (fuel : nat) (acc : R) (f : objective) (a b c : R) :
  Rabs (b - a) <= acc ->
  bisection_loop fuel acc f a b (Some c) = Some (Ok (Num c)).
Proof.
  intros H. destruct fuel; cbn [bisection_loop]; now rewrite gtb_false by lra.
Qed.

Section BisectionRun.

Variable g : R -> R.
Variable tol : R.

(** A bracket wider than the tolerance and no wider than [tol * 2 ^ n]: the
    loop returns within [n] iterations, along a run the specification
    describes. *)
Lemma bisection_loop_run :
  forall (n : nat) (a b : R) (c0 : option R),
    Rabs (b - a) <= tol * 2 ^ n -> Rabs (b - a) > tol ->
    exists c : R,
      bisection_run g tol a b c /\
      forall k : nat,
        bisection_loop (n + k) tol (fun x => Ok (g x)) a b c0 = Some (Ok (Num c)).
Proof.
  intros n. induction n as [|n IH]; intros a b c0 Hle Hgt.
  - cbn [pow] in Hle. lra.
  - assert (Hmid : 0.5 * (a + b) = (a + b) / 2) by lra.
    cbn [pow] in Hle.
    destruct (Req_dec_T (g ((a + b) / 2)) 0) as [Hz | Hnz].
    + exists ((a + b) / 2). split; [now apply run_root |].
      intros k. cbn [Nat.add bisection_loop bind_loop].
      rewrite gtb_true by lra. rewrite Hmid. now rewrite eqb_true.
    + destruct (Rlt_dec 0 (g a * g ((a + b) / 2))) as [Hpos | Hneg].
      * (* the upper half is kept *)
        destruct (Rle_dec (Rabs (b - (a + b) / 2)) tol) as [Hlast | Hmore].
        -- exists ((a + b) / 2). split; [now apply run_upper_last |].
           intros k. cbn [Nat.add bisection_loop bind_loop].
           rewrite gtb_true by lra. rewrite Hmid.
           rewrite eqb_false by assumption. rewrite gtb_true by lra.
           now apply bisection_loop_exit.
        -- destruct (IH ((a + b) / 2) b (Some ((a + b) / 2))) as [c [Hrun Hc]].
           ++ rewrite half_width_upper. lra.
           ++ lra.
           ++ exists c. split; [now apply run_upper |].
              intros k. cbn [Nat.add bisection_loop bind_loop].
              rewrite gtb_true by lra. rewrite Hmid.
              rewrite eqb_false by assumption. rewrite gtb_true by lra.
              apply Hc.
      * (* the lower half is kept *)
        destruct (Rle_dec (Rabs ((a + b) / 2 - a)) tol) as [Hlast | Hmore].
        -- exists ((a + b) / 2). split; [apply run_lower_last; lra |].
           intros k. cbn [Nat.add bisection_loop bind_loop].
           rewrite gtb_true by lra. rewrite Hmid.
           rewrite eqb_false by assumption. rewrite gtb_false by lra.
           now apply bisection_loop_exit.
        -- destruct (IH a ((a + b) / 2) (Some ((a + b) / 2))) as [c [Hrun Hc]].
           ++ rewrite half_width_lower. lra.
           ++ lra.
           ++ exists c. split; [apply run_lower; (lra || assumption) |].
              intros k. cbn [Nat.add bisection_loop bind_loop].
              rewrite gtb_true by lra. rewrite Hmid.
              rewrite eqb_false by assumption. rewrite gtb_false by lra.
              apply Hc.
Qed.

End BisectionRun.

(** What C5 states, on a bracket wider than the tolerance: for a total
    objective [g] with [g a * g b <= 0] and a positive tolerance, some number of
    iterations suffices, and the value returned is that of a run in which
    the midpoint is returned at once when [g] vanishes there, each
    iteration keeps the half the sign of [g a * g c] selects, and the last
    midpoint is returned once the bracket is no wider than the tolerance. *)
Theorem bisection_terminates :
  forall (self : RootFinder) (g : R -> R) (a b : R),
    0 < accuracy self -> g a * g b <= 0 -> Rabs (b - a) > accuracy self ->
    exists (n : nat) (c : R),
      bisection_run g (accuracy self) a b c /\
      forall fuel : nat, (n <= fuel)%nat ->
        bisectionMethod self fuel (fun x => Ok (g x)) a b = Some (Ok (Num c)).
Proof.
  intros self g a b Htol Hsign Hwide.
  destruct (pow2_unbounded (Rabs (b - a) / accuracy self)) as [n Hn].
  assert (Hle : Rabs (b - a) <= accuracy self * 2 ^ n).
  { apply (Rmult_le_compat_l (accuracy self)) in Hn; [| lra].
    replace (accuracy self * (Rabs (b - a) / accuracy self)) with (Rabs (b - a))
      in Hn by (field; lra).
    exact Hn. }
  destruct (bisection_loop_run g (accuracy self) n a b None Hle Hwide)
    as [c [Hrun Hc]].
  exists n, c. split; [exact Hrun |].
  intros fuel Hfuel. unfold bisectionMethod. cbn [bind_loop].
  rewrite gtb_false by lra.
  replace fuel with (n + (fuel - n))%nat by lia. apply Hc.
Qed.

Lemma bisection_terminates_witness :
  exists (n : nat) (c : R),
    bisection_run (fun x => x - 1) (accuracy (mkRootFinder 1 (Some bisection))) 0 4 c /\
    forall fuel : nat, (n <= fuel)%nat ->
      bisectionMethod (mkRootFinder 1 (Some bisection)) fuel
        (fun x => Ok ((fun x => x - 1) x)) 0 4 = Some (Ok (Num c)).
Proof.
  apply (bisection_terminates (mkRootFinder 1 (Some bisection)) (fun x => x - 1) 0 4);
    cbn [accuracy].
  - lra.
  - lra.
  - replace (4 - 0) with 4 by ring. rewrite Rabs_pos_eq; lra.
Defined.

(** ** RootFinder: Dekker's method *)

Lemma dekker_pq_nonneg (s : dekker_state) : 0 <= fst (dekker_pq s).
Proof.
  unfold dekker_pq. destruct (Rle_dec 0 ((dk_b s - dk_a s) * dk_fb s)).
  - rewrite geb_true by lra. cbn. lra.
  - rewrite geb_false by lra. cbn. lra.
Qed.

(** [b + p / q] is the secant point. *)
Lemma dekker_pq_secant (s : dekker_state) :
  dk_fa s <> dk_fb s ->
  snd (dekker_pq s) <> 0 /\
  dk_b s + fst (dekker_pq s) / snd (dekker_pq s) = dekker_secant s.
Proof.
  intros H. unfold dekker_pq, dekker_secant, secant.
  destruct (Rle_dec 0 ((dk_b s - dk_a s) * dk_fb s)).
  - rewrite geb_true by lra. cbn [fst snd]. split; [lra | field; lra].
  - rewrite geb_false by lra. cbn [fst snd]. split; [lra | field; lra].
Qed.

(** The test [p <= (m - b) * q] of line 106, read on the secant point. *)
Lemma accept_within (b m p q : R) :
  q <> 0 -> 0 <= p -> p <= (m - b) * q -> within b m (b + p / q).
Proof.
  intros Hq Hp Hacc. unfold within.
  assert (Hd : p = p / q * q) by (field; lra).
  set (d := p / q) in *.
  unfold Rmin, Rmax. destruct (Rle_dec b m); destruct (Rlt_dec 0 q); nra.
Qed.

Lemma within_accept (b m p q : R) :
  q <> 0 -> 0 < p -> within b m (b + p / q) -> p <= (m - b) * q.
Proof.
  intros Hq Hp. unfold within.
  assert (Hd : p = p / q * q) by (field; lra).
  set (d := p / q) in *.
  unfold Rmin, Rmax. destruct (Rle_dec b m); destruct (Rlt_dec 0 q); nra.
Qed.

Lemma dekker_step_cases (f : objective) (s : dekker_state) :
  let p := fst (dekker_pq s) in
  let q := snd (dekker_pq s) in
  (p <= (dekker_mid s - dk_b s) * q ->
   dekker_step f s = d <- div p q ;; dekker_next f s (dk_b s + d)) /\
  ((dekker_mid s - dk_b s) * q < p ->
   dekker_step f s = dekker_next f s (dekker_mid s)).
Proof.
  intros p q. subst p q. unfold dekker_step, dekker_next, dekker_mid.
  destruct (dekker_pq s) as [p q]. cbn [fst snd].
  replace (0.5 * (dk_b s + dk_c s)) with ((dk_b s + dk_c s) / 2) by lra.
  split; intros H.
  - rewrite leb_true by lra. reflexivity.
  - rewrite leb_false by lra. reflexivity.
Qed.

Lemma dekker_step_outside (f : objective) (s : dekker_state) :
  dk_fa s <> dk_fb s ->
  ~ within (dk_b s) (dekker_mid s) (dekker_secant s) ->
  dekker_step f s = dekker_next f s (dekker_mid s).
Proof.
  intros Hq Hout.
  destruct (dekker_pq_secant s Hq) as [Hq0 Hsec].
  apply (dekker_step_cases f s).
  apply Rnot_le_lt. intros Hacc. apply Hout. rewrite <- Hsec.
  apply accept_within; [exact Hq0 | apply dekker_pq_nonneg | exact Hacc].
Qed.

Lemma dekker_step_inside (f : objective) (s : dekker_state) :
  dk_fa s <> dk_fb s ->
  within (dk_b s) (dekker_mid s) (dekker_secant s) ->
  dekker_secant s <> dk_b s ->
  dekker_step f s = dekker_next f s (dekker_secant s).
Proof.
  intros Hq Hin Hmove.
  destruct (dekker_pq_secant s Hq) as [Hq0 Hsec].
  assert (Hp : 0 < fst (dekker_pq s)).
  { destruct (dekker_pq_nonneg s) as [Hp | Hp]; [exact Hp |].
    exfalso. apply Hmove. rewrite <- Hsec, <- Hp. field. exact Hq0. }
  destruct (dekker_step_cases f s) as [Hacc _].
  rewrite Hacc.
  - rewrite div_ok by exact Hq0. cbn [bind]. now rewrite Hsec.
  - apply within_accept; [exact Hq0 | exact Hp | now rewrite Hsec].
Qed.

Lemma dekker_step_either (f : objective) (s : dekker_state) :
  dk_fa s <> dk_fb s ->
  dekker_step f s = dekker_next f s (dekker_secant s) \/
  dekker_step f s = dekker_next f s (dekker_mid s).
Proof.
  intros Hq.
  destruct (dekker_pq_secant s Hq) as [Hq0 Hsec].
  destruct (dekker_step_cases f s) as [Hacc Hrej].
  destruct (Rle_dec (fst (dekker_pq s))
                    ((dekker_mid s - dk_b s) * snd (dekker_pq s))) as [H | H].
  - left. rewrite Hacc by exact H. rewrite div_ok by exact Hq0. cbn [bind].
    now rewrite Hsec.
  - right. apply Hrej. lra.
Qed.

(** Equal values at [a] and [b]: no secant exists; the midpoint is taken
    unless [(b - a) * fb = 0], where line 107 divides zero by zero. *)
Lemma dekker_step_flat (f : objective) (s : dekker_state) :
  dk_fa s = dk_fb s ->
  ((dk_b s - dk_a s) * dk_fb s <> 0 ->
   dekker_step f s = dekker_next f s (dekker_mid s)) /\
  ((dk_b s - dk_a s) * dk_fb s = 0 ->
   dekker_step f s = Raise ZeroDivisionError).
Proof.
  intros Hflat.
  destruct (dekker_step_cases f s) as [Hacc Hrej].
  unfold dekker_pq in *.
  destruct (Rle_dec 0 ((dk_b s - dk_a s) * dk_fb s)) as [Hp | Hp].
  - rewrite geb_true in * by lra. cbn [fst snd] in *.
    replace (dk_fa s - dk_fb s) with 0 in * by lra.
    split; intros H.
    + apply Hrej. lra.
    + rewrite Hacc by lra. now rewrite div_zero.
  - rewrite geb_false in * by lra. cbn [fst snd] in *.
    replace (dk_fb s - dk_fa s) with 0 in * by lra.
    split; intros H.
    + apply Hrej. lra.
    + lra.
Qed.

Lemma dekker_swap_smaller (s : dekker_state) :
  Rabs (dk_fb (dekker_swap s)) <= Rabs (dk_fc (dekker_swap s)).
Proof.
  unfold dekker_swap.
  destruct (Rlt_dec (Rabs (dk_fc s)) (Rabs (dk_fb s))) as [H | H].
  - rewrite ltb_true by exact H. cbn. lra.
  - rewrite ltb_false by lra. lra.
Qed.

(** The steps of C6, for every pass and every state.  One pass through the
    loop of Dekker's method from the state [s], step by step: (1) [c] is
    reset to [a] when [fb * fc > 0]; (2) the roles are swapped when
    [|fc| < |fb|], after which [b] holds the smaller [|f|];
    (3-4) with [m] the midpoint of [b] and [c] and [x] the secant point of
    [(a, fa)], [(b, fb)] (defined when [fa <> fb]), the new [b] is [m]
    whenever [x] lies outside the interval of [b] and [m], it is [x]
    whenever [x] lies inside and differs from [b], and it is one of the two
    in every case; when [fa = fb] the new [b] is [m], except that
    [(b - a) * fb = 0] makes the step divide zero by zero; (5) the old [b]
    becomes [a] and [f] is evaluated at the new [b]. The loop leaves with
    [b] as soon as [|b - a| <= tolerance], and runs the body otherwise. *)
Theorem dekker_iteration :
  forall (f : objective) (s : dekker_state),
    let s1 := dekker_reset s in
    let s2 := dekker_swap s1 in
    let m := dekker_mid s2 in
    let x := dekker_secant s2 in
    (dk_fb s * dk_fc s > 0 ->
     s1 = {| dk_a := dk_a s; dk_fa := dk_fa s; dk_b := dk_b s; dk_fb := dk_fb s;
             dk_c := dk_a s; dk_fc := dk_fa s |}) /\
    (dk_fb s * dk_fc s <= 0 -> s1 = s) /\
    (Rabs (dk_fc s1) < Rabs (dk_fb s1) ->
     s2 = {| dk_a := dk_b s1; dk_fa := dk_fb s1; dk_b := dk_c s1; dk_fb := dk_fc s1;
             dk_c := dk_b s1; dk_fc := dk_fb s1 |}) /\
    (Rabs (dk_fb s1) <= Rabs (dk_fc s1) -> s2 = s1) /\
    Rabs (dk_fb s2) <= Rabs (dk_fc s2) /\
    (dk_fa s2 <> dk_fb s2 ->
     (~ within (dk_b s2) m x -> dekker_body f s = dekker_next f s2 m) /\
     (within (dk_b s2) m x -> x <> dk_b s2 -> dekker_body f s = dekker_next f s2 x) /\
     (dekker_body f s = dekker_next f s2 x \/ dekker_body f s = dekker_next f s2 m)) /\
    (dk_fa s2 = dk_fb s2 ->
     ((dk_b s2 - dk_a s2) * dk_fb s2 <> 0 -> dekker_body f s = dekker_next f s2 m) /\
     ((dk_b s2 - dk_a s2) * dk_fb s2 = 0 -> dekker_body f s = Raise ZeroDivisionError)) /\
    (forall (acc : R) (fuel : nat),
        Rabs (dk_b s - dk_a s) <= acc ->
        dekker_loop fuel acc f s = Some (Ok (Num (dk_b s)))) /\
    (forall (acc : R) (fuel : nat),
        Rabs (dk_b s - dk_a s) > acc ->
        dekker_loop (S fuel) acc f s
        = call s' <- dekker_body f s ;; dekker_loop fuel acc f s').
Proof.
  intros f s s1 s2 m x. subst s1 s2 m x. unfold dekker_body.
  repeat split.
  - intros H. unfold dekker_reset. now rewrite gtb_true by lra.
  - intros H. unfold dekker_reset. now rewrite gtb_false by lra.
  - intros H. unfold dekker_swap. now rewrite ltb_true by lra.
  - intros H. unfold dekker_swap. now rewrite ltb_false by lra.
  - apply dekker_swap_smaller.
  - now apply dekker_step_outside.
  - now apply dekker_step_inside.
  - now apply dekker_step_either.
  - now apply dekker_step_flat.
  - now apply dekker_step_flat.
  - intros acc fuel H. destruct fuel; cbn [dekker_loop]; now rewrite gtb_false by lra.
  - intros acc fuel H. cbn [dekker_loop]. now rewrite gtb_true by lra.
Qed.

(** Dekker's method on [f(x) = x - 2] over the default bracket: the first
    secant step lands on the root, the second pass falls back to the
    midpoint, the third returns to the root and the loop leaves. *)
Example dekkers_linear :
  dekkersMethod (mkRootFinder default_accuracy (Some dekkers)) 3
    (fun x => Ok (x - 2)) 0 100 = Some (Ok (Num 2)).
Proof.
  unfold dekkersMethod, default_accuracy. cbn [bind_loop accuracy].
  compare.
  cbn [dekker_loop dk_a dk_b]. repeat run_step.
  unfold dekker_body, dekker_reset. cbn [dk_a dk_fa dk_b dk_fb dk_c dk_fc].
  repeat run_step.
  unfold dekker_swap. cbn [dk_a dk_fa dk_b dk_fb dk_c dk_fc]. repeat run_step.
  unfold dekker_step, dekker_pq. cbn [dk_a dk_fa dk_b dk_fb dk_c dk_fc].
  repeat run_step.
  do 3 f_equal. lra.
Qed.

(** Dekker's method on a bracket wider than the tolerance whose two ends
    are roots of the objective: no reset, no swap, [p = 0] and [q = 0], the
    test of line 106 accepts, and line 107 divides zero by zero. *)
Lemma dekkers_roots_at_both_ends (self : RootFinder) (fuel : nat)
  (f : objective) (a b : R) :
  f a = Ok 0 -> f b = Ok 0 -> Rabs (b - a) > accuracy self ->
  dekkersMethod self (S fuel) f a b = Some (Raise ZeroDivisionError).
Proof.
  intros Ha Hb Hwide. unfold dekkersMethod. rewrite Ha, Hb. cbn [bind_loop].
  rewrite gtb_false by lra.
  cbn [dekker_loop dk_a dk_b]. rewrite gtb_true by lra.
  set (s := {| dk_a := a; dk_fa := 0; dk_b := b; dk_fb := 0;
               dk_c := a; dk_fc := 0 |}).
  assert (Hreset : dekker_reset s = s)
    by (unfold dekker_reset; cbn; now rewrite gtb_false by lra).
  assert (Hswap : dekker_swap s = s)
    by (unfold dekker_swap; cbn; now rewrite ltb_false by lra).
  unfold dekker_body. rewrite Hreset, Hswap.
  destruct (dekker_step_flat f s eq_refl) as [_ Hzero].
  rewrite Hzero; [reflexivity |]. cbn. ring.
Qed.

(** C6, at the objective that is zero everywhere, over the default bracket
    [0, 100] with the default tolerance: the first pass accepts a secant
    step that does not exist ([p = q = 0]) and raises [ZeroDivisionError],
    where the claim has the iteration fall back to the midpoint. *)
Theorem dekkers_flat_objective_raises :
  forall fuel : nat,
    dekkersMethod (mkRootFinder default_accuracy (Some dekkers)) (S fuel)
      (fun _ => Ok 0) 0 100 = Some (Raise ZeroDivisionError).
Proof.
  intros fuel. apply dekkers_roots_at_both_ends; try reflexivity.
  cbn [accuracy]. unfold default_accuracy.
  rewrite Rabs_pos_eq by lra. lra.
Qed.

(** ** The price formulas are defined where the specification assumes *)

Lemma norm_pdf_pos (x : R) : 0 < norm_pdf x.
Proof.
  unfold norm_pdf. apply Rdiv_lt_0_compat.
  - apply exp_pos.
  - apply sqrt_lt_R0. pose proof PI_RGT_0. lra.
Qed.

Lemma sqrt_years_pos (tau : R) : 0 < tau -> 0 < sqrt (tau / 365).
Proof. intros H. apply sqrt_lt_R0. lra. Qed.

Lemma Stock_BlackScholes_defined (V X K tau r sigma : R) (ot mt : string) :
  0 < X -> 0 < K -> 0 < tau -> sigma <> 0 ->
  let st := sqrt (tau / 365) in
  let d1 := (ln (X / K) + (r + 0.5 * sigma ^ 2) * (tau / 365)) / (sigma * st) in
  callOptionPriceBlackScholes (Stock_init V X K tau r ot mt) sigma
  = Ok (X * norm_cdf d1 - exp (- r * (tau / 365)) * K * norm_cdf (d1 - sigma * st)).
Proof.
  intros HX HK Htau Hsigma st d1. subst st d1.
  pose proof (sqrt_years_pos tau Htau) as Hst.
  unfold callOptionPriceBlackScholes, Stock_init, np_exp.
  cbn [self_class self_X self_K self_tau self_r setPutCallParityOffset Option_init].
  rewrite div_ok by lra. cbn [bind].
  rewrite np_log_ok by (apply Rdiv_lt_0_compat; lra). cbn [bind].
  rewrite np_sqrt_ok by lra. cbn [bind].
  rewrite div_ok by (apply Rmult_integral_contrapositive_currified; lra).
  reflexivity.
Qed.

Lemma Future_BlackScholes_defined (V X K tau r sigma : R) (ot mt : string) :
  0 < X -> 0 < K -> 0 < tau -> sigma <> 0 ->
  let st := sqrt (tau / 365) in
  let d1 := (ln (X / K) + 0.5 * sigma ^ 2 * (tau / 365)) / (sigma * st) in
  callOptionPriceBlackScholes (Future_init V X K tau r ot mt) sigma
  = Ok (exp (- r * (tau / 365))
        * (X * norm_cdf d1 - K * norm_cdf (d1 - sigma * st))).
Proof.
  intros HX HK Htau Hsigma st d1. subst st d1.
  pose proof (sqrt_years_pos tau Htau) as Hst.
  unfold callOptionPriceBlackScholes, Future_init, np_exp.
  cbn [self_class self_X self_K self_tau self_r setPutCallParityOffset Option_init].
  rewrite div_ok by lra. cbn [bind].
  rewrite np_log_ok by (apply Rdiv_lt_0_compat; lra). cbn [bind].
  rewrite np_sqrt_ok by lra. cbn [bind].
  rewrite div_ok by (apply Rmult_integral_contrapositive_currified; lra).
  reflexivity.
Qed.

Lemma Future_Bachelier_defined (V X K tau r sigma : R) (ot mt : string) :
  0 < tau -> sigma <> 0 ->
  let st := sqrt (tau / 365) in
  let d := (X - K) / (sigma * st) in
  callOptionPriceBachelier (Future_init V X K tau r ot mt) sigma
  = Ok ((X - K) * norm_cdf d + sigma * st * norm_pdf d).
Proof.
  intros Htau Hsigma st d. subst st d.
  pose proof (sqrt_years_pos tau Htau) as Hst.
  unfold callOptionPriceBachelier, Future_init.
  cbn [self_class self_X self_K self_tau self_r setPutCallParityOffset Option_init].
  rewrite np_sqrt_ok by lra. cbn [bind].
  rewrite div_ok by (apply Rmult_integral_contrapositive_currified; lra).
  reflexivity.
Qed.

Lemma exp_lt_1 (x : R) : x < 0 -> exp x < 1.
Proof. intros H. rewrite <- exp_0. now apply exp_increasing. Qed.

Lemma exp_gt_1 (x : R) : 0 < x -> 1 < exp x.
Proof. intros H. rewrite <- exp_0. now apply exp_increasing. Qed.

Lemma Stock_Bachelier_defined (V X K tau r sigma : R) (ot mt : string) :
  0 < tau -> r <> 0 -> sigma <> 0 ->
  let K_star := K * exp (- r * (tau / 365)) in
  let v_tT := 0.5 * (sigma ^ 2 / r) * (1 - exp (- 2 * r * (tau / 365))) in
  let d := (X - K_star) / v_tT in
  callOptionPriceBachelier (Stock_init V X K tau r ot mt) sigma
  = Ok ((X - K_star) * norm_cdf d + v_tT * norm_pdf d).
Proof.
  intros Htau Hr Hsigma K_star v_tT d. subst K_star v_tT d.
  unfold callOptionPriceBachelier, Stock_init, np_exp.
  cbn [self_class self_X self_K self_tau self_r setPutCallParityOffset Option_init].
  rewrite div_ok by exact Hr. cbn [bind].
  rewrite div_ok; [reflexivity |].
  assert (Hs2 : sigma ^ 2 / r <> 0).
  { unfold Rdiv. apply Rmult_integral_contrapositive_currified.
    - apply pow_nonzero. exact Hsigma.
    - apply Rinv_neq_0_compat. exact Hr. }
  assert (He : 1 - exp (- 2 * r * (tau / 365)) <> 0).
  { destruct (Rlt_dec 0 r) as [Hpos | Hneg].
    - assert (exp (- 2 * r * (tau / 365)) < 1) by (apply exp_lt_1; nra). lra.
    - assert (1 < exp (- 2 * r * (tau / 365))) by (apply exp_gt_1; nra). lra. }
  apply Rmult_integral_contrapositive_currified; [| exact He].
  apply Rmult_integral_contrapositive_currified; [lra | exact Hs2].
Qed.

(** ** Option: parity offset *)

(** Reads the fields of an option a constructor built. *)
Ltac fields :=
  cbn [self_class self_V_mkt self_X self_K self_tau self_r self_OptionType
       self_ModelType self_PutCallParityOffset getOptionType getModelType
       getPutCallParityOffset Stock_init Future_init setPutCallParityOffset
       Option_init].

(** What the two constructors store: the time to expiry in years, and an
    offset discounted over the number of days they were passed. *)
Lemma parityOffset_stored (V X K tau r : R) (ot mt : string) :
  self_tau (Stock_init V X K tau r ot mt) = tau / 365 /\
  self_tau (Future_init V X K tau r ot mt) = tau / 365 /\
  getPutCallParityOffset (Stock_init V X K tau r ot mt)
  = Some (K * exp (- r * tau) - X) /\
  getPutCallParityOffset (Future_init V X K tau r ot mt)
  = Some ((K - X) * exp (- r * tau)).
Proof. repeat split. Qed.

Lemma discount_days_years (r tau : R) :
  r * tau <> 0 -> exp (- r * tau) <> exp (- r * (tau / 365)).
Proof.
  intros Hrt Heq. apply exp_inv in Heq. apply Hrt. lra.
Qed.

(** The stored offset of a Stock differs from the tabulated one as soon as
    the rate, the day count and the strike are not zero. *)
Lemma Stock_parityOffset_differs (V X K tau r : R) (ot mt : string) :
  r * tau <> 0 -> K <> 0 ->
  getPutCallParityOffset (Stock_init V X K tau r ot mt)
  <> Some (parityOffset_spec (Stock_init V X K tau r ot mt)).
Proof.
  intros Hrt HK Heq.
  unfold parityOffset_spec, Stock_init, getPutCallParityOffset, np_exp in Heq.
  cbn in Heq. injection Heq as Heq.
  apply (discount_days_years r tau Hrt).
  apply (Rmult_eq_reg_l K); [lra | exact HK].
Qed.

Lemma Future_parityOffset_differs (V X K tau r : R) (ot mt : string) :
  r * tau <> 0 -> K <> X ->
  getPutCallParityOffset (Future_init V X K tau r ot mt)
  <> Some (parityOffset_spec (Future_init V X K tau r ot mt)).
Proof.
  intros Hrt HK Heq.
  unfold parityOffset_spec, Future_init, getPutCallParityOffset, np_exp in Heq.
  cbn in Heq. injection Heq as Heq.
  apply (discount_days_years r tau Hrt).
  apply (Rmult_eq_reg_l (K - X)); [lra | lra].
Qed.

(** C1, at spot 100 (90 for the Future), strike 100, 365 days to expiry
    and rate 0.01: the stored time to expiry is one year, the stored offset
    discounts over 365 (the day count) and not over 1, and so differs from
    [K e^{-r tau} - X], respectively [(K - X) e^{-r tau}]. *)
Theorem parityOffset_discounts_over_days :
  forall (V : R) (ot mt : string),
    let stock := Stock_init V 100 100 365 0.01 ot mt in
    let future := Future_init V 90 100 365 0.01 ot mt in
    self_tau stock = 1 /\
    self_tau future = 1 /\
    getPutCallParityOffset stock = Some (100 * exp (- 0.01 * 365) - 100) /\
    getPutCallParityOffset future = Some ((100 - 90) * exp (- 0.01 * 365)) /\
    parityOffset_spec stock = 100 * exp (- 0.01 * 1) - 100 /\
    parityOffset_spec future = (100 - 90) * exp (- 0.01 * 1) /\
    getPutCallParityOffset stock <> Some (parityOffset_spec stock) /\
    getPutCallParityOffset future <> Some (parityOffset_spec future).
Proof.
  intros V ot mt stock future. subst stock future.
  assert (Hyear : 365 / 365 = 1) by lra.
  assert (Hneg : - (0.01) = -0.01) by lra.
  repeat split.
  - exact Hyear.
  - exact Hyear.
  - fields. unfold np_exp. now rewrite Hneg.
  - fields. unfold np_exp. now rewrite Hneg.
  - unfold parityOffset_spec. fields. now rewrite Hyear, Hneg.
  - unfold parityOffset_spec. fields. now rewrite Hyear, Hneg.
  - apply Stock_parityOffset_differs; lra.
  - apply Future_parityOffset_differs; lra.
Qed.

(** ** Option: put-call parity *)

Lemma parity_of_offset (callPrice putPrice : Option -> R -> result R)
  (self : Option) (sigma o : R) :
  getPutCallParityOffset self = Some o ->
  putPrice self sigma
  = (V_call <- callPrice self sigma ;; add_offset V_call (Some o)) ->
  parity callPrice putPrice self sigma.
Proof.
  intros Hoff Hput. unfold parity. rewrite Hput.
  destruct (callPrice self sigma) as [V_call | e]; cbn [bind add_offset].
  - exists (V_call + o). split; [reflexivity |].
    rewrite Hoff. f_equal. ring.
  - reflexivity.
Qed.

(** C3.  For every Stock and every Future option, under Black-Scholes and
    under Bachelier, and for every [sigma]: the put price minus the call
    price is the option's stored parity offset, which does not depend on
    [sigma] (and the put raises exactly when the call does). *)
Theorem put_call_parity :
  forall (V X K tau r sigma : R) (ot mt : string),
    let stock := Stock_init V X K tau r ot mt in
    let future := Future_init V X K tau r ot mt in
    parity callOptionPriceBlackScholes putOptionPriceBlackScholes stock sigma /\
    parity callOptionPriceBachelier putOptionPriceBachelier stock sigma /\
    parity callOptionPriceBlackScholes putOptionPriceBlackScholes future sigma /\
    parity callOptionPriceBachelier putOptionPriceBachelier future sigma.
Proof.
  intros V X K tau r sigma ot mt stock future. subst stock future.
  repeat split;
    (eapply parity_of_offset; [apply parityOffset_stored | reflexivity]).
Qed.

(** The four call prices are defined at the inputs of the specification's
    scenarios, so the parity above is one between two numbers there. *)
Example prices_defined :
  (exists c, callOptionPriceBlackScholes
               (Stock_init 0 100 100 30 0.01 "Call" "BlackScholes") 0.2 = Ok c) /\
  (exists c, callOptionPriceBachelier
               (Stock_init 0 100 100 30 0.01 "Call" "Bachelier") 10 = Ok c) /\
  (exists c, callOptionPriceBlackScholes
               (Future_init 0 50 55 90 0 "Call" "BlackScholes") 0.2 = Ok c) /\
  (exists c, callOptionPriceBachelier
               (Future_init 0 50 55 90 0 "Call" "Bachelier") 10 = Ok c).
Proof.
  repeat split; eexists.
  - apply Stock_BlackScholes_defined; lra.
  - apply Stock_Bachelier_defined; lra.
  - apply Future_BlackScholes_defined; lra.
  - apply Future_Bachelier_defined; lra.
Qed.

(** ** Option: the Bachelier price of a Stock at a zero rate *)

Lemma getOptionPrice_dispatch (self : Option) :
  (getModelType self = "BlackScholes" -> getOptionType self = "Call" ->
   getOptionPrice self = Ok (callOptionPriceBlackScholes self)) /\
  (getModelType self = "BlackScholes" -> getOptionType self = "Put" ->
   getOptionPrice self = Ok (putOptionPriceBlackScholes self)) /\
  (getModelType self = "Bachelier" -> getOptionType self = "Call" ->
   getOptionPrice self = Ok (callOptionPriceBachelier self)) /\
  (getModelType self = "Bachelier" -> getOptionType self = "Put" ->
   getOptionPrice self = Ok (putOptionPriceBachelier self)).
Proof.
  unfold getOptionPrice.
  repeat split; intros Hm Ht; rewrite Hm, Ht; reflexivity.
Qed.

(** Both root finders evaluate the objective at the lower end of the
    bracket first: an exception raised there is the outcome of the solve. *)
Lemma rootFind_raises_at_a (m : method) (self : RootFinder) (fuel : nat)
  (f : objective) (a b : R) (e : exn) :
  f a = Raise e -> rootFind_apply m self fuel f a b = Some (Raise e).
Proof.
  intros Hf. destruct m; cbn [rootFind_apply];
    unfold dekkersMethod, bisectionMethod; now rewrite Hf.
Qed.

Lemma Stock_Bachelier_zero_rate (V X K tau sigma : R) (ot mt : string) :
  callOptionPriceBachelier (Stock_init V X K tau 0 ot mt) sigma
  = Raise ZeroDivisionError.
Proof.
  unfold callOptionPriceBachelier, Stock_init.
  cbn [self_class self_X self_K self_tau self_r setPutCallParityOffset Option_init].
  now rewrite div_zero.
Qed.

(** C10.  A Stock option with risk-free rate 0, whatever its other inputs
    (so also with [sigma > 0], a positive time to expiry and a positive
    strike): the Bachelier call price divides [sigma ** 2] by the rate and
    is the outcome [ZeroDivisionError]; so are the put price and, with
    either root finder, the implied volatility of a Bachelier call or put. *)
Theorem Stock_Bachelier_zero_rate_undefined :
  forall (V X K tau sigma : R) (ot mt : string),
    callOptionPriceBachelier (Stock_init V X K tau 0 ot mt) sigma
    = Raise ZeroDivisionError /\
    putOptionPriceBachelier (Stock_init V X K tau 0 ot mt) sigma
    = Raise ZeroDivisionError /\
    (forall (m : method) (acc : R) (fuel : nat),
        impliedVol (Stock_init V X K tau 0 "Call" "Bachelier")
                   (mkRootFinder acc (Some m)) fuel
        = Some (Raise ZeroDivisionError) /\
        impliedVol (Stock_init V X K tau 0 "Put" "Bachelier")
                   (mkRootFinder acc (Some m)) fuel
        = Some (Raise ZeroDivisionError)).
Proof.
  intros V X K tau sigma ot mt.
  split; [apply Stock_Bachelier_zero_rate |].
  split.
  - unfold putOptionPriceBachelier. cbn [self_class Stock_init setPutCallParityOffset Option_init].
    now rewrite Stock_Bachelier_zero_rate.
  - intros m acc fuel.
    split; unfold impliedVol; cbn [getRootFindMethod rootFindMethod rootFind_call];
      apply rootFind_raises_at_a; unfold modelMisPrice.
    + cbn [getOptionPrice bind]. change (getOptionPrice _) with
        (Ok (callOptionPriceBachelier (Stock_init V X K tau 0 "Call" "Bachelier"))).
      cbn [bind]. now rewrite Stock_Bachelier_zero_rate.
    + change (getOptionPrice _) with
        (Ok (putOptionPriceBachelier (Stock_init V X K tau 0 "Put" "Bachelier"))).
      cbn [bind]. unfold putOptionPriceBachelier.
      cbn [self_class Stock_init setPutCallParityOffset Option_init].
      now rewrite Stock_Bachelier_zero_rate.
Qed.

(** ** Option: what is checked, and when *)

Lemma getProduct_known (V X K tau r : R) (ot mt : string) :
  getProduct "Stock" V X K tau r ot mt = Ok (Stock_init V X K tau r ot mt) /\
  getProduct "Future" V X K tau r ot mt = Ok (Future_init V X K tau r ot mt).
Proof. split; reflexivity. Qed.

(** An exception a price method of a Stock or a Future raises comes from
    the arithmetic of its formula. *)
Lemma div_raises (x y : R) (e : exn) :
  div x y = Raise e -> e = ZeroDivisionError.
Proof. unfold div. destruct (eqb y 0); congruence. Qed.

Lemma np_log_raises (x : R) (e : exn) :
  np_log x = Raise e -> e = FloatingPointError.
Proof. unfold np_log. destruct (gtb x 0); congruence. Qed.

Lemma np_sqrt_raises (x : R) (e : exn) :
  np_sqrt x = Raise e -> e = FloatingPointError.
Proof. unfold np_sqrt. destruct (geb x 0); congruence. Qed.

Ltac raised :=
  repeat match goal with
    | |- context [bind ?c _] =>
        let H := fresh "H" in
        destruct c eqn:H; cbn [bind];
        [ | intros e' He'; injection He' as <-;
            first [ apply div_raises in H; left; exact H
                  | apply np_log_raises in H; right; exact H
                  | apply np_sqrt_raises in H; right; exact H ] ]
    end.

Lemma call_prices_raise_arithmetic (self : Option) (sigma : R) :
  self_class self <> Base ->
  (forall e, callOptionPriceBlackScholes self sigma = Raise e -> arithmetic e) /\
  (forall e, callOptionPriceBachelier self sigma = Raise e -> arithmetic e).
Proof.
  intros Hcls. unfold callOptionPriceBlackScholes, callOptionPriceBachelier.
  destruct (self_class self); [contradiction | |]; split; raised; congruence.
Qed.

Lemma put_prices_raise_arithmetic (self : Option) (sigma o : R) :
  self_class self <> Base -> getPutCallParityOffset self = Some o ->
  (forall e, putOptionPriceBlackScholes self sigma = Raise e -> arithmetic e) /\
  (forall e, putOptionPriceBachelier self sigma = Raise e -> arithmetic e).
Proof.
  intros Hcls Hoff.
  destruct (call_prices_raise_arithmetic self sigma Hcls) as [Hbs Hbac].
  unfold putOptionPriceBlackScholes, putOptionPriceBachelier. rewrite Hoff.
  destruct (self_class self); [contradiction | | ]; split; intros e;
    match goal with
    | |- context [bind ?c _] => destruct c eqn:Hc
    end;
    cbn [bind add_offset]; intros He; try discriminate;
    injection He as <-; auto.
Qed.

(** C7, refuted: a Future with strike -55 and -90 days to expiry is built
    without any error, and the Bachelier call price of a Future with strike
    -55 at the volatility -10 is the number its formula gives: nothing is
    rejected before the formula is evaluated. *)
Lemma non_positive_inputs_accepted :
  getProduct "Future" 0 50 (-55) (-90) 0 "Call" "Bachelier"
  = Ok (Future_init 0 50 (-55) (-90) 0 "Call" "Bachelier") /\
  callOptionPriceBachelier (Future_init 0 50 (-55) 90 0 "Call" "Bachelier") (-10)
  = Ok ((50 - -55) * norm_cdf ((50 - -55) / (-10 * sqrt (90 / 365)))
        + -10 * sqrt (90 / 365) * norm_pdf ((50 - -55) / (-10 * sqrt (90 / 365)))).
Proof.
  split; [reflexivity |].
  apply (Future_Bachelier_defined 0 50 (-55) 90 0 (-10)); lra.
Qed.

(** C7, amended.  No input is rejected for its sign.  The factory builds a
    Stock and a Future from every strike and every day count; the price
    methods of the object evaluate their formula at every [sigma], and an
    exception they raise is one of the arithmetic (a division by zero, a
    logarithm or a square root outside its domain); the Bachelier call
    price of a Future with a positive day count is the value of its formula
    at every strike and every [sigma <> 0], negative ones included. *)
Theorem no_input_validation :
  forall (V X K tau r sigma : R) (ot mt : string),
    getProduct "Stock" V X K tau r ot mt = Ok (Stock_init V X K tau r ot mt) /\
    getProduct "Future" V X K tau r ot mt = Ok (Future_init V X K tau r ot mt) /\
    (forall (self : Option) (e : exn),
        self = Stock_init V X K tau r ot mt \/
        self = Future_init V X K tau r ot mt ->
        callOptionPriceBlackScholes self sigma = Raise e \/
        putOptionPriceBlackScholes self sigma = Raise e \/
        callOptionPriceBachelier self sigma = Raise e \/
        putOptionPriceBachelier self sigma = Raise e ->
        arithmetic e) /\
    (0 < tau -> sigma <> 0 ->
     callOptionPriceBachelier (Future_init V X K tau r ot mt) sigma
     = Ok ((X - K) * norm_cdf ((X - K) / (sigma * sqrt (tau / 365)))
           + sigma * sqrt (tau / 365)
             * norm_pdf ((X - K) / (sigma * sqrt (tau / 365))))).
Proof.
  intros V X K tau r sigma ot mt.
  split; [reflexivity |]. split; [reflexivity |]. split.
  - intros self e Hself Hraise.
    assert (Hcls : self_class self <> Base)
      by (destruct Hself as [-> | ->]; discriminate).
    assert (Hoff : exists o, getPutCallParityOffset self = Some o)
      by (destruct Hself as [-> | ->]; eexists; reflexivity).
    destruct Hoff as [o Hoff].
    destruct (call_prices_raise_arithmetic self sigma Hcls) as [H1 H3].
    destruct (put_prices_raise_arithmetic self sigma o Hcls Hoff) as [H2 H4].
    destruct Hraise as [H | [H | [H | H]]]; auto.
  - intros Htau Hsigma. now apply Future_Bachelier_defined.
Qed.

Lemma no_input_validation_witness :
  arithmetic ZeroDivisionError /\
  callOptionPriceBachelier (Future_init 0 50 (-55) 90 0 "Put" "Bachelier") (-10)
  = Ok ((50 - -55) * norm_cdf ((50 - -55) / (-10 * sqrt (90 / 365)))
        + -10 * sqrt (90 / 365) * norm_pdf ((50 - -55) / (-10 * sqrt (90 / 365)))).
Proof.
  pose proof (no_input_validation 0 50 (-55) 90 0 (-10) "Put" "Bachelier")
    as [_ [_ [_ Hprice]]].
  pose proof (no_input_validation 0 50 55 90 0 0 "Put" "Bachelier")
    as [_ [_ [Hraise _]]].
  split.
  - apply (Hraise (Future_init 0 50 55 90 0 "Put" "Bachelier")).
    + right. reflexivity.
    + right. right. left.
      unfold callOptionPriceBachelier. fields.
      rewrite np_sqrt_ok by lra. cbn [bind].
      replace (0 * sqrt (90 / 365)) with 0 by ring.
      now rewrite div_zero.
  - apply Hprice; lra.
Defined.

(** C8, refuted: the factory builds a Stock whose side is "Straddle" and
    whose convention is "Heston"; no error is raised at construction. *)
Lemma unknown_side_and_convention_are_built :
  getProduct "Stock" 1 100 100 30 0.01 "Straddle" "Heston"
  = Ok (Stock_init 1 100 100 30 0.01 "Straddle" "Heston").
Proof. reflexivity. Qed.

Lemma getOptionPrice_unknown (self : Option) :
  (getModelType self <> "BlackScholes" -> getModelType self <> "Bachelier" ->
   getOptionPrice self = Raise (NameError "Model Type not supported")) /\
  (getModelType self = "BlackScholes" \/ getModelType self = "Bachelier" ->
   getOptionType self <> "Call" -> getOptionType self <> "Put" ->
   getOptionPrice self = Raise (NameError "Option Type not recognized")).
Proof.
  unfold getOptionPrice. split.
  - intros H1 H2.
    apply String.eqb_neq in H1, H2. now rewrite H1, H2.
  - intros Hm H1 H2.
    apply String.eqb_neq in H1, H2. rewrite H1, H2.
    destruct Hm as [-> | ->]; reflexivity.
Qed.

Lemma impliedVol_raises_of_getOptionPrice (self : Option) (m : method)
  (acc : R) (fuel : nat) (e : exn) :
  getOptionPrice self = Raise e ->
  impliedVol self (mkRootFinder acc (Some m)) fuel = Some (Raise e).
Proof.
  intros H. unfold impliedVol.
  cbn [getRootFindMethod rootFindMethod rootFind_call].
  apply rootFind_raises_at_a. unfold modelMisPrice. now rewrite H.
Qed.

(** C8, amended.  An instrument kind other than "Stock" and "Future" fails
    in the factory, at construction, with the [KeyError] of the dictionary
    lookup.  A side or a convention outside its enumeration does not: the
    factory builds the object from any two strings, and the [NameError]
    ("Model Type not supported", tested first, or "Option Type not
    recognized") is raised by [getOptionPrice], that is when a solve first
    evaluates its objective. *)
Theorem unknown_names_errors :
  forall (V X K tau r : R) (ot mt : string),
    (forall product : string,
        product <> "Stock" -> product <> "Future" ->
        getProduct product V X K tau r ot mt = Raise (KeyError product)) /\
    getProduct "Stock" V X K tau r ot mt = Ok (Stock_init V X K tau r ot mt) /\
    getProduct "Future" V X K tau r ot mt = Ok (Future_init V X K tau r ot mt) /\
    (forall self : Option,
        getModelType self <> "BlackScholes" -> getModelType self <> "Bachelier" ->
        getOptionPrice self = Raise (NameError "Model Type not supported")) /\
    (forall self : Option,
        getModelType self = "BlackScholes" \/ getModelType self = "Bachelier" ->
        getOptionType self <> "Call" -> getOptionType self <> "Put" ->
        getOptionPrice self = Raise (NameError "Option Type not recognized")) /\
    (forall (self : Option) (m : method) (acc : R) (fuel : nat) (e : exn),
        getOptionPrice self = Raise e ->
        impliedVol self (mkRootFinder acc (Some m)) fuel = Some (Raise e)).
Proof.
  intros V X K tau r ot mt.
  split.
  { intros product H1 H2. unfold getProduct.
    apply String.eqb_neq in H1, H2. now rewrite H1, H2. }
  split; [reflexivity |]. split; [reflexivity |].
  split; [intros self; apply getOptionPrice_unknown |].
  split; [intros self; apply getOptionPrice_unknown |].
  intros self m acc fuel e. apply impliedVol_raises_of_getOptionPrice.
Qed.

Lemma unknown_names_errors_witness :
  getProduct "Swap" 1 100 100 30 0.01 "Call" "BlackScholes"
  = Raise (KeyError "Swap") /\
  getOptionPrice (Stock_init 1 100 100 30 0.01 "Straddle" "Heston")
  = Raise (NameError "Model Type not supported") /\
  getOptionPrice (Stock_init 1 100 100 30 0.01 "Straddle" "Bachelier")
  = Raise (NameError "Option Type not recognized") /\
  impliedVol (Stock_init 1 100 100 30 0.01 "Straddle" "Bachelier")
             (mkRootFinder default_accuracy (Some dekkers)) 0
  = Some (Raise (NameError "Option Type not recognized")).
Proof.
  pose proof (unknown_names_errors 1 100 100 30 0.01 "Call" "BlackScholes")
    as [Hkind [_ [_ [Hmodel [Hside Hsolve]]]]].
  refine (conj _ (conj _ (conj _ _))).
  - apply Hkind; discriminate.
  - apply Hmodel; discriminate.
  - apply Hside; [right; reflexivity | discriminate | discriminate].
  - apply Hsolve. reflexivity.
Defined.

(** ** Option: the bracket of the solve *)

(** C9, refuted: a caller who passes the bracket [1, 2] to [impliedVol]
    gets a [TypeError], where the solve of the specification over that
    bracket returns the sentinel (the mispricing of this Future is positive
    at both ends). *)
Lemma impliedVol_takes_no_bracket :
  impliedVol_call (Future_init 0 50 50 90 0 "Call" "Bachelier")
                  (mkRootFinder default_accuracy (Some dekkers)) [1; 2] 0
  = Some (Raise (TypeError "too many positional arguments")) /\
  solveImpliedVol_spec (Future_init 0 50 50 90 0 "Call" "Bachelier")
                       (mkRootFinder default_accuracy (Some dekkers)) 1 2 0
  = Some (Ok NaN).
Proof.
  split; [reflexivity |].
  unfold solveImpliedVol_spec.
  cbn [getRootFindMethod rootFindMethod rootFind_apply].
  unfold dekkersMethod, modelMisPrice.
  change (getOptionPrice _) with
    (Ok (callOptionPriceBachelier (Future_init 0 50 50 90 0 "Call" "Bachelier"))).
  cbn [bind].
  rewrite !Future_Bachelier_defined by lra.
  cbn [bind bind_loop]. fields.
  pose proof (sqrt_years_pos 90 ltac:(lra)) as Hst.
  pose proof (norm_pdf_pos ((50 - 50) / (1 * sqrt (90 / 365)))) as H1.
  pose proof (norm_pdf_pos ((50 - 50) / (2 * sqrt (90 / 365)))) as H2.
  rewrite gtb_true; [reflexivity |].
  set (st := sqrt (90 / 365)) in *.
  set (p1 := norm_pdf _) in H1 |- *. set (p2 := norm_pdf _) in H2 |- *.
  assert (0 < st * p1) by nra. assert (0 < st * p2) by nra. nra.
Qed.

(** C9, amended.  [impliedVol] takes the option and the root finder only:
    it solves the mispricing [price(sigma) - V_mkt] over the bracket
    [0, 100] that the root-finding methods default to, and passing it
    bounds is a [TypeError].  The bounds are parameters of the two
    root-finding methods, not of the solve. *)
Theorem impliedVol_solves_default_bracket :
  forall (self : Option) (rootFind : RootFinder) (fuel : nat),
    impliedVol self rootFind fuel = solveImpliedVol_spec self rootFind 0 100 fuel /\
    impliedVol_call self rootFind [] fuel = impliedVol self rootFind fuel /\
    (forall (x : R) (more : list R),
        impliedVol_call self rootFind (x :: more) fuel
        = Some (Raise (TypeError "too many positional arguments"))) /\
    (forall (price : R -> result R) (x : R),
        getOptionPrice self = Ok price ->
        modelMisPrice self x = (V <- price x ;; Ok (V - self_V_mkt self))).
Proof.
  intros self rootFind fuel.
  refine (conj _ (conj _ (conj _ _))).
  - unfold impliedVol, solveImpliedVol_spec.
    destruct (getRootFindMethod rootFind); reflexivity.
  - reflexivity.
  - reflexivity.
  - intros price x H. unfold modelMisPrice. now rewrite H.
Qed.

Lemma impliedVol_solves_default_bracket_witness :
  impliedVol (Future_init 0 50 55 90 0 "Call" "Bachelier")
             (mkRootFinder default_accuracy (Some bisection)) 0
  = solveImpliedVol_spec (Future_init 0 50 55 90 0 "Call" "Bachelier")
             (mkRootFinder default_accuracy (Some bisection)) 0 100 0 /\
  modelMisPrice (Future_init 0 50 55 90 0 "Call" "Bachelier") 10
  = (V <- callOptionPriceBachelier
            (Future_init 0 50 55 90 0 "Call" "Bachelier") 10 ;;
     Ok (V - 0)).
Proof.
  pose proof (impliedVol_solves_default_bracket
                (Future_init 0 50 55 90 0 "Call" "Bachelier")
                (mkRootFinder default_accuracy (Some bisection)) 0)
    as [Hsolve [_ [_ Hobjective]]].
  split; [exact Hsolve | apply Hobjective; reflexivity].
Defined.

(** ** The lower end of the default bracket *)

Lemma zero_times (x : R) : 0 * x = 0.
Proof. ring. Qed.

(** At [sigma = 0] every call price divides by zero, when it does not fail
    before: in exact arithmetic the price is not defined there (the
    program, on numpy scalars, continues with [inf] or [nan]). *)
Lemma call_prices_undefined_at_zero (self : Option) :
  self_class self <> Base ->
  (exists e, callOptionPriceBlackScholes self 0 = Raise e) /\
  (exists e, callOptionPriceBachelier self 0 = Raise e).
Proof.
  intros Hcls. unfold callOptionPriceBlackScholes, callOptionPriceBachelier.
  destruct (self_class self); [contradiction | |]; split;
    repeat match goal with
      | |- context [bind (div ?x (0 * ?y)) _] =>
          rewrite (zero_times y), div_zero; cbn [bind]; eexists; reflexivity
      | |- context [bind ?c _] =>
          destruct c eqn:?; cbn [bind]; [ | eexists; reflexivity ]
      end.
  exfalso.
  match goal with
  | H : div (0 ^ 2) _ = Ok _ |- _ =>
      unfold div in H; destruct (eqb (self_r self) 0); [discriminate |];
      injection H as <-
  end.
  match goal with
  | H : div _ ?v = Ok _ |- _ =>
      replace v with 0 in H by (unfold Rdiv; ring);
      rewrite div_zero in H; discriminate
  end.
Qed.

Lemma put_prices_undefined_at_zero (self : Option) :
  self_class self <> Base ->
  (exists e, putOptionPriceBlackScholes self 0 = Raise e) /\
  (exists e, putOptionPriceBachelier self 0 = Raise e).
Proof.
  intros Hcls.
  destruct (call_prices_undefined_at_zero self Hcls) as [[e1 H1] [e2 H2]].
  unfold putOptionPriceBlackScholes, putOptionPriceBachelier.
  destruct (self_class self); [contradiction | |];
    rewrite H1, H2; split; eexists; reflexivity.
Qed.

(** The solve starts by evaluating the mispricing at the lower end 0 of the
    default bracket: in exact arithmetic it has no value there, whatever
    the option and the method. *)
Lemma impliedVol_undefined_at_default_bracket (self : Option) (m : method)
  (acc : R) (fuel : nat) :
  self_class self <> Base ->
  exists e, impliedVol self (mkRootFinder acc (Some m)) fuel = Some (Raise e).
Proof.
  intros Hcls.
  destruct (call_prices_undefined_at_zero self Hcls) as [[e1 H1] [e2 H2]].
  destruct (put_prices_undefined_at_zero self Hcls) as [[e3 H3] [e4 H4]].
  assert (Hf : exists e, modelMisPrice self 0 = Raise e).
  { unfold modelMisPrice, getOptionPrice.
    repeat match goal with
      | |- context [if ?c then _ else _] => destruct c
      end; cbn [bind];
      rewrite ?H1, ?H2, ?H3, ?H4; eexists; reflexivity. }
  destruct Hf as [e Hf]. exists e.
  unfold impliedVol. cbn [getRootFindMethod rootFindMethod rootFind_call].
  now apply rootFind_raises_at_a.
Qed.

(** ** Bisection: the value returned *)

Lemma sign_carries (u v w : R) : u * v > 0 -> u * w <= 0 -> v * w <= 0.
Proof.
  intros Huv Huw.
  destruct (Rle_dec (v * w) 0) as [H | H]; [exact H |].
  exfalso. assert (0 < (u * v) * (v * w)) by nra.
  assert (0 <= v * v) by nra. nra.
Qed.

Lemma within_mid (a b : R) : within a b ((a + b) / 2).
Proof.
  unfold within, Rmin, Rmax. destruct (Rle_dec a b); lra.
Qed.

Lemma within_ends (a b : R) : within a b a /\ within a b b.
Proof.
  unfold within, Rmin, Rmax. destruct (Rle_dec a b); lra.
Qed.

Lemma within_trans (a b u v x : R) :
  within a b u -> within a b v -> within u v x -> within a b x.
Proof.
  unfold within, Rmin, Rmax.
  destruct (Rle_dec a b); destruct (Rle_dec u v); lra.
Qed.

Lemma bisection_run_bracket (g : R -> R) (tol a b c : R) :
  bisection_run g tol a b c -> g a * g b <= 0 ->
  within a b c /\
  (g c = 0 \/
   exists a' b' : R,
     within a b a' /\ within a b b' /\ g a' * g b' <= 0 /\
     Rabs (b' - a') <= tol /\ (c = a' \/ c = b')).
Proof.
  intros Hrun. induction Hrun as
    [a b Hw Hz | a b Hw Hnz Hpos Hlast | a b Hw Hnz Hneg Hlast
    | a b c Hw Hnz Hpos Hrun IH | a b c Hw Hnz Hneg Hrun IH]; intros Hsign.
  - split; [apply within_mid | now left].
  - split; [apply within_mid | right].
    exists ((a + b) / 2), b. repeat split; try apply within_mid; try apply within_ends.
    + eapply sign_carries; eassumption.
    + exact Hlast.
    + now left.
  - split; [apply within_mid | right].
    exists a, ((a + b) / 2). repeat split; try apply within_mid; try apply within_ends.
    + exact Hneg.
    + exact Hlast.
    + now right.
  - destruct IH as [Hc Hroot]; [eapply sign_carries; eassumption |].
    assert (Hsub : forall x, within ((a + b) / 2) b x -> within a b x).
    { intros x. apply within_trans; [apply within_mid | apply within_ends]. }
    split; [now apply Hsub |].
    destruct Hroot as [Hz | [a' [b' [Ha' [Hb' [Hs [Hwd Hend]]]]]]]; [now left | right].
    exists a', b'. repeat split; auto; apply Hsub; assumption.
  - destruct IH as [Hc Hroot]; [exact Hneg |].
    assert (Hsub : forall x, within a ((a + b) / 2) x -> within a b x).
    { intros x. apply within_trans; [apply within_ends | apply within_mid]. }
    split; [now apply Hsub |].
    destruct Hroot as [Hz | [a' [b' [Ha' [Hb' [Hs [Hwd Hend]]]]]]]; [now left | right].
    exists a', b'. repeat split; auto; apply Hsub; assumption.
Qed.

Lemma root_between (g : R -> R) (u v : R) :
  continuity g -> g u * g v <= 0 ->
  exists z : R, within u v z /\ g z = 0.
Proof.
  intros Hcont Hsign.
  destruct (Rle_dec u v) as [Huv | Huv].
  - destruct (IVT_cor g u v Hcont Huv Hsign) as [z [Hz Hgz]].
    exists z. split; [| exact Hgz].
    unfold within, Rmin, Rmax. destruct (Rle_dec u v); lra.
  - assert (Hvu : v <= u) by lra.
    assert (Hsign' : g v * g u <= 0) by lra.
    destruct (IVT_cor g v u Hcont Hvu Hsign') as [z [Hz Hgz]].
    exists z. split; [| exact Hgz].
    unfold within, Rmin, Rmax. destruct (Rle_dec u v); lra.
Qed.

(** X3.  Bisection of a continuous [g] from a bracket wider than the
    (positive) tolerance with [g a * g b <= 0]: the method returns, with
    enough fuel, a point [c] of the bracket that is within the tolerance of
    a root [z] of [g] lying in the bracket. *)
Theorem bisection_finds_root :
  forall (self : RootFinder) (g : R -> R) (a b : R),
    continuity g ->
    0 < accuracy self -> g a * g b <= 0 -> Rabs (b - a) > accuracy self ->
    exists (n : nat) (c z : R),
      (forall fuel : nat, (n <= fuel)%nat ->
         bisectionMethod self fuel (fun x => Ok (g x)) a b = Some (Ok (Num c))) /\
      within a b c /\ within a b z /\ g z = 0 /\ Rabs (c - z) <= accuracy self.
Proof.
  intros self g a b Hcont Htol Hsign Hwide.
  destruct (pow2_unbounded (Rabs (b - a) / accuracy self)) as [n Hn].
  assert (Hle : Rabs (b - a) <= accuracy self * 2 ^ n).
  { apply (Rmult_le_compat_l (accuracy self)) in Hn; [| lra].
    replace (accuracy self * (Rabs (b - a) / accuracy self)) with (Rabs (b - a))
      in Hn by (field; lra).
    exact Hn. }
  destruct (bisection_loop_run g (accuracy self) n a b None Hle Hwide)
    as [c [Hrun Hc]].
  destruct (bisection_run_bracket g _ a b c Hrun Hsign) as [Hin Hroot].
  assert (Hz : exists z, within a b z /\ g z = 0 /\ Rabs (c - z) <= accuracy self).
  { destruct Hroot as [Hz | [a' [b' [Ha' [Hb' [Hs [Hwd Hend]]]]]]].
    - exists c. split; [exact Hin |]. split; [exact Hz |].
      replace (c - c) with 0 by ring. rewrite Rabs_R0. lra.
    - destruct (root_between g a' b' Hcont Hs) as [z [Hzin Hgz]].
      exists z. split; [exact (within_trans a b a' b' z Ha' Hb' Hzin) |].
      split; [exact Hgz |].
      unfold within, Rmin, Rmax in Hzin.
      revert Hwd. unfold Rabs.
      destruct (Rle_dec a' b'); destruct Hend as [-> | ->];
        repeat destruct Rcase_abs; lra. }
  destruct Hz as [z [Hzin [Hgz Hclose]]].
  exists n, c, z. split; [| auto].
  intros fuel Hfuel. unfold bisectionMethod. cbn [bind_loop].
  rewrite gtb_false by lra.
  replace fuel with (n + (fuel - n))%nat by lia. apply Hc.
Qed.

Lemma bisection_finds_root_witness :
  exists (n : nat) (c z : R),
    (forall fuel : nat, (n <= fuel)%nat ->
       bisectionMethod (mkRootFinder 1 (Some bisection)) fuel
         (fun x => Ok ((fun x => x - 1) x)) 0 4 = Some (Ok (Num c))) /\
    within 0 4 c /\ within 0 4 z /\ (fun x => x - 1) z = 0 /\
    Rabs (c - z) <= accuracy (mkRootFinder 1 (Some bisection)).
Proof.
  apply (bisection_finds_root (mkRootFinder 1 (Some bisection)) (fun x => x - 1) 0 4);
    cbn [accuracy].
  - reg.
  - lra.
  - lra.
  - replace (4 - 0) with 4 by ring. rewrite Rabs_pos_eq; lra.
Defined.

(** ** Dekker: the bracket is kept *)

Lemma dekker_reset_inv (g : R -> R) (lo hi : R) (s : dekker_state) :
  dekker_inv g lo hi s ->
  dekker_inv g lo hi (dekker_reset s) /\
  dk_fb (dekker_reset s) * dk_fc (dekker_reset s) <= 0.
Proof.
  intros (Ha & Hb & Hc & Hfa & Hfb & Hfc & Hsign). unfold dekker_reset.
  destruct (Rlt_dec 0 (dk_fb s * dk_fc s)) as [Hpos | Hneg].
  - rewrite gtb_true by lra.
    assert (Hba : dk_fb s * dk_fa s <= 0) by (destruct Hsign; lra).
    split; [| cbn; exact Hba].
    unfold dekker_inv; cbn. repeat split; try tauto; try lra.
  - rewrite gtb_false by lra.
    split; [unfold dekker_inv; tauto | lra].
Qed.

Lemma dekker_swap_inv (g : R -> R) (lo hi : R) (s : dekker_state) :
  dekker_inv g lo hi s -> dk_fb s * dk_fc s <= 0 ->
  dekker_inv g lo hi (dekker_swap s) /\
  dk_fb (dekker_swap s) * dk_fc (dekker_swap s) <= 0.
Proof.
  intros (Ha & Hb & Hc & Hfa & Hfb & Hfc & Hsign) Hbc. unfold dekker_swap.
  destruct (Rlt_dec (Rabs (dk_fc s)) (Rabs (dk_fb s))) as [Hlt | Hge].
  - rewrite ltb_true by lra.
    split; [| cbn; lra].
    unfold dekker_inv; cbn. repeat split; try tauto; try lra.
  - rewrite ltb_false by lra.
    split; [unfold dekker_inv; tauto | lra].
Qed.

Lemma dekker_next_inv (g : R -> R) (lo hi : R) (s s' : dekker_state) (y : R) :
  dekker_inv g lo hi s -> dk_fb s * dk_fc s <= 0 ->
  within (dk_b s) (dk_c s) y ->
  dekker_next (fun x => Ok (g x)) s y = Ok s' ->
  dekker_inv g lo hi s'.
Proof.
  intros (Ha & Hb & Hc & Hfa & Hfb & Hfc & Hsign) Hbc Hy Hnext.
  unfold dekker_next in Hnext. cbn [bind] in Hnext. injection Hnext as <-.
  unfold dekker_inv; cbn.
  assert (Hyin : lo <= y <= hi).
  { unfold within, Rmin, Rmax in Hy. destruct (Rle_dec (dk_b s) (dk_c s)); lra. }
  repeat split; try tauto; try lra.
  destruct (Rle_dec (g y * dk_fc s) 0) as [H | H]; [now left | right].
  destruct (Rle_dec (g y * dk_fb s) 0) as [H' | H']; [exact H' | exfalso].
  assert (0 < (g y * dk_fc s) * (g y * dk_fb s)) by nra.
  assert (0 <= g y * g y) by nra. nra.
Qed.

Lemma within_half (b c x : R) :
  within b ((b + c) / 2) x -> within b c x.
Proof.
  unfold within, Rmin, Rmax.
  destruct (Rle_dec b ((b + c) / 2)); destruct (Rle_dec b c); lra.
Qed.

Lemma dekker_step_point (g : R -> R) (s s' : dekker_state) :
  dekker_step (fun x => Ok (g x)) s = Ok s' ->
  exists y : R,
    within (dk_b s) (dk_c s) y /\ dekker_next (fun x => Ok (g x)) s y = Ok s'.
Proof.
  intros Hstep.
  destruct (dekker_step_cases (fun x => Ok (g x)) s) as [Hacc Hrej].
  destruct (Rle_dec (fst (dekker_pq s))
                    ((dekker_mid s - dk_b s) * snd (dekker_pq s))) as [H | H].
  - rewrite Hacc in Hstep by exact H.
    unfold div in Hstep.
    destruct (Req_dec_T (snd (dekker_pq s)) 0) as [Hq | Hq].
    + rewrite eqb_true in Hstep by exact Hq. discriminate.
    + rewrite eqb_false in Hstep by exact Hq. cbn [bind] in Hstep.
      eexists. split; [| exact Hstep].
      apply within_half. apply accept_within; [exact Hq | apply dekker_pq_nonneg | exact H].
  - rewrite Hrej in Hstep by lra.
    exists (dekker_mid s). split; [| exact Hstep].
    unfold dekker_mid. apply within_half. apply within_ends.
Qed.

Lemma dekker_body_inv (g : R -> R) (lo hi : R) (s s' : dekker_state) :
  dekker_inv g lo hi s ->
  dekker_body (fun x => Ok (g x)) s = Ok s' ->
  dekker_inv g lo hi s'.
Proof.
  intros Hinv Hbody. unfold dekker_body in Hbody.
  destruct (dekker_reset_inv g lo hi s Hinv) as [H1 Hs1].
  destruct (dekker_swap_inv g lo hi _ H1 Hs1) as [H2 Hs2].
  destruct (dekker_step_point g _ s' Hbody) as [y [Hy Hnext]].
  exact (dekker_next_inv g lo hi _ s' y H2 Hs2 Hy Hnext).
Qed.

Lemma dekker_loop_inv (g : R -> R) (lo hi acc : R) :
  forall (fuel : nat) (s : dekker_state) (x : R),
    dekker_inv g lo hi s ->
    dekker_loop fuel acc (fun x => Ok (g x)) s = Some (Ok (Num x)) ->
    exists s' : dekker_state,
      dekker_inv g lo hi s' /\ x = dk_b s' /\ Rabs (dk_b s' - dk_a s') <= acc.
Proof.
  induction fuel as [| fuel IH]; intros s x Hinv Hloop; cbn [dekker_loop] in Hloop.
  - destruct (Rlt_dec acc (Rabs (dk_b s - dk_a s))) as [Hw | Hw].
    + rewrite gtb_true in Hloop by lra. discriminate.
    + rewrite gtb_false in Hloop by lra. injection Hloop as <-.
      exists s. split; [exact Hinv | split; [reflexivity | lra]].
  - destruct (Rlt_dec acc (Rabs (dk_b s - dk_a s))) as [Hw | Hw].
    + rewrite gtb_true in Hloop by lra.
      destruct (dekker_body (fun x => Ok (g x)) s) as [s1 | e] eqn:Hbody;
        cbn [bind_loop] in Hloop; [| discriminate].
      apply (IH s1 x); [| exact Hloop].
      exact (dekker_body_inv g lo hi s s1 Hinv Hbody).
    + rewrite gtb_false in Hloop by lra. injection Hloop as <-.
      exists s. split; [exact Hinv | split; [reflexivity | lra]].
Qed.

(** X4.  For a total objective [g], Dekker's loop keeps [dekker_inv]: the
    state the method starts from satisfies it when [g a * g b <= 0]; every
    pass preserves it, so the three points never leave the bracket, the
    stored values are [g] at the points, and [g] at [b] never has the sign
    of [g] at both [a] and [c]; after the reset and the swap of a pass,
    [fb * fc <= 0].  A number the method returns is the [b] of such a
    state with [|b - a| <= tolerance], and so lies in the bracket. *)
Theorem dekkers_keeps_bracket :
  forall (g : R -> R) (lo hi : R),
    (forall a b : R,
        g a * g b <= 0 ->
        dekker_inv g (Rmin a b) (Rmax a b)
          {| dk_a := a; dk_fa := g a; dk_b := b; dk_fb := g b;
             dk_c := a; dk_fc := g a |}) /\
    (forall s s' : dekker_state,
        dekker_inv g lo hi s ->
        dekker_body (fun x => Ok (g x)) s = Ok s' ->
        dekker_inv g lo hi s') /\
    (forall s : dekker_state,
        dekker_inv g lo hi s ->
        dekker_inv g lo hi (dekker_swap (dekker_reset s)) /\
        dk_fb (dekker_swap (dekker_reset s))
        * dk_fc (dekker_swap (dekker_reset s)) <= 0) /\
    (forall (self : RootFinder) (fuel : nat) (a b x : R),
        dekkersMethod self fuel (fun x => Ok (g x)) a b = Some (Ok (Num x)) ->
        within a b x /\
        exists s : dekker_state,
          dekker_inv g (Rmin a b) (Rmax a b) s /\
          x = dk_b s /\ Rabs (dk_b s - dk_a s) <= accuracy self).
Proof.
  intros g lo hi.
  assert (Hinit : forall a b : R,
             g a * g b <= 0 ->
             dekker_inv g (Rmin a b) (Rmax a b)
               {| dk_a := a; dk_fa := g a; dk_b := b; dk_fb := g b;
                  dk_c := a; dk_fc := g a |}).
  { intros a b Hsign. destruct (within_ends a b) as [Ha Hb].
    unfold dekker_inv; cbn. unfold within in Ha, Hb.
    repeat split; try tauto. left. lra. }
  refine (conj Hinit (conj _ (conj _ _))).
  - intros s s'. apply dekker_body_inv.
  - intros s Hinv.
    destruct (dekker_reset_inv g lo hi s Hinv) as [H1 Hs1].
    exact (dekker_swap_inv g lo hi _ H1 Hs1).
  - intros self fuel a b x Hrun. unfold dekkersMethod in Hrun.
    cbn [bind_loop] in Hrun.
    destruct (Rlt_dec 0 (g a * g b)) as [Hpos | Hneg].
    + rewrite gtb_true in Hrun by lra. discriminate.
    + rewrite gtb_false in Hrun by lra.
      destruct (dekker_loop_inv g _ _ _ fuel _ x (Hinit a b ltac:(lra)) Hrun)
        as [s' [Hinv' [Hx Hclose]]].
      split.
      * rewrite Hx. unfold within. apply Hinv'.
      * exists s'. split; [exact Hinv' | split; [exact Hx | exact Hclose]].
Qed.

Lemma dekkers_keeps_bracket_witness :
  within 0 100 2 /\
  exists s : dekker_state,
    dekker_inv (fun x => x - 2) (Rmin 0 100) (Rmax 0 100) s /\
    2 = dk_b s /\
    Rabs (dk_b s - dk_a s)
    <= accuracy (mkRootFinder default_accuracy (Some dekkers)).
Proof.
  pose proof (dekkers_keeps_bracket (fun x => x - 2) 0 100) as [_ [_ [_ H]]].
  apply (H (mkRootFinder default_accuracy (Some dekkers)) 3%nat 0 100 2).
  exact dekkers_linear.
Defined.

(** ** Exceptions that escape the root finders *)

Lemma bisection_loop_raises (acc : R) (f : objective) :
  forall (fuel : nat) (a b : R) (c0 : option R) (e : exn),
    bisection_loop fuel acc f a b c0 = Some (Raise e) ->
    (e = UnboundLocalError "c" /\ c0 = None /\ Rabs (b - a) <= acc) \/
    exists x : R, f x = Raise e.
Proof.
  induction fuel as [| fuel IH]; intros a b c0 e Hloop; cbn [bisection_loop] in Hloop.
  - destruct (Rlt_dec acc (Rabs (b - a))) as [Hw | Hw].
    + rewrite gtb_true in Hloop by lra. discriminate.
    + rewrite gtb_false in Hloop by lra.
      destruct c0; [discriminate |]. injection Hloop as <-. left. repeat split. lra.
  - destruct (Rlt_dec acc (Rabs (b - a))) as [Hw | Hw].
    + rewrite gtb_true in Hloop by lra.
      destruct (f (0.5 * (a + b))) as [fc | e1] eqn:Hfc; cbn [bind_loop] in Hloop.
      * destruct (eqb fc 0); [discriminate |].
        destruct (f a) as [fa | e2] eqn:Hfa; cbn [bind_loop] in Hloop.
        -- destruct (gtb (fa * fc) 0);
             (apply IH in Hloop; destruct Hloop as [[_ [Hc _]] | Hx];
              [discriminate | right; exact Hx]).
        -- injection Hloop as <-. right. now exists a.
      * injection Hloop as <-. right. now exists (0.5 * (a + b)).
    + rewrite gtb_false in Hloop by lra.
      destruct c0; [discriminate |]. injection Hloop as <-. left. repeat split. lra.
Qed.

Lemma dekker_body_raises (f : objective) (s : dekker_state) (e : exn) :
  dekker_body f s = Raise e ->
  e = ZeroDivisionError \/ exists x : R, f x = Raise e.
Proof.
  unfold dekker_body, dekker_step.
  destruct (dekker_pq (dekker_swap (dekker_reset s))) as [p q].
  destruct (leb p _).
  - destruct (div p q) as [d | e1] eqn:Hd; cbn [bind].
    + destruct (f _) as [fb | e2] eqn:Hf; cbn [bind]; [discriminate |].
      intros H. injection H as <-. right. eexists. exact Hf.
    + intros H. injection H as <-. left. now apply div_raises in Hd.
  - destruct (f _) as [fb | e2] eqn:Hf; cbn [bind]; [discriminate |].
    intros H. injection H as <-. right. eexists. exact Hf.
Qed.

Lemma dekker_loop_raises (acc : R) (f : objective) :
  forall (fuel : nat) (s : dekker_state) (e : exn),
    dekker_loop fuel acc f s = Some (Raise e) ->
    e = ZeroDivisionError \/ exists x : R, f x = Raise e.
Proof.
  induction fuel as [| fuel IH]; intros s e Hloop; cbn [dekker_loop] in Hloop.
  - destruct (gtb _ acc); discriminate.
  - destruct (gtb _ acc); [| discriminate].
    destruct (dekker_body f s) as [s1 | e1] eqn:Hbody; cbn [bind_loop] in Hloop.
    + now apply IH in Hloop.
    + injection Hloop as <-. now apply dekker_body_raises in Hbody.
Qed.

(** X5.  An exception that escapes a root finder was raised by the
    objective at some point, or is the method's own: [UnboundLocalError]
    for the bisection, and only on a bracket no wider than the tolerance;
    [ZeroDivisionError] for Dekker's method. *)
Theorem rootFinders_own_exceptions :
  forall (self : RootFinder) (fuel : nat) (f : objective) (a b : R) (e : exn),
    (bisectionMethod self fuel f a b = Some (Raise e) ->
     (e = UnboundLocalError "c" /\ Rabs (b - a) <= accuracy self) \/
     exists x : R, f x = Raise e) /\
    (dekkersMethod self fuel f a b = Some (Raise e) ->
     e = ZeroDivisionError \/ exists x : R, f x = Raise e).
Proof.
  intros self fuel f a b e. split.
  - unfold bisectionMethod. intros H.
    destruct (f a) as [fa | e1] eqn:Hfa; cbn [bind_loop] in H;
      [| injection H as <-; right; now exists a].
    destruct (f b) as [fb | e2] eqn:Hfb; cbn [bind_loop] in H;
      [| injection H as <-; right; now exists b].
    destruct (gtb (fa * fb) 0); [discriminate |].
    apply bisection_loop_raises in H. destruct H as [[He [_ Hw]] | Hx]; auto.
  - unfold dekkersMethod. intros H.
    destruct (f a) as [fa | e1] eqn:Hfa; cbn [bind_loop] in H;
      [| injection H as <-; right; now exists a].
    destruct (f b) as [fb | e2] eqn:Hfb; cbn [bind_loop] in H;
      [| injection H as <-; right; now exists b].
    destruct (gtb (fa * fb) 0); [discriminate |].
    now apply dekker_loop_raises in H.
Qed.

Lemma rootFinders_own_exceptions_witness :
  (UnboundLocalError "c" = UnboundLocalError "c" /\
   Rabs (0 - 0) <= accuracy (RootFinder_init default_accuracy)) \/
  exists x : R, (fun x => Ok x) x = Raise (UnboundLocalError "c").
Proof.
  apply (rootFinders_own_exceptions (RootFinder_init default_accuracy) 0
           (fun x => Ok x) 0 0 (UnboundLocalError "c")).
  apply (bisection_narrow_bracket _ 0 (fun x => Ok x) 0 0 0 0);
    try reflexivity; [lra |].
  rewrite Rabs_zero_width. unfold default_accuracy. cbn [accuracy RootFinder_init]. lra.
Defined.

(** ** Dekker on a bracket no wider than the tolerance *)

(** X6.  On a bracket no wider than the tolerance whose end values do not
    have the same sign, Dekker's method returns [b] at once, whatever the
    fuel (where the bisection raises, lemma [bisection_narrow_bracket]). *)
Theorem dekkers_narrow_bracket :
  forall (self : RootFinder) (fuel : nat) (f : objective) (a b fa fb : R),
    f a = Ok fa -> f b = Ok fb -> fa * fb <= 0 ->
    Rabs (b - a) <= accuracy self ->
    dekkersMethod self fuel f a b = Some (Ok (Num b)).
Proof.
  intros self fuel f a b fa fb Ha Hb Hsign Hw.
  unfold dekkersMethod. rewrite Ha, Hb. cbn [bind_loop].
  rewrite gtb_false by lra.
  destruct fuel; cbn [dekker_loop dk_a dk_b]; now rewrite gtb_false by lra.
Qed.

Lemma dekkers_narrow_bracket_witness :
  dekkersMethod (RootFinder_init default_accuracy) 0 (fun x => Ok x) 0 0
  = Some (Ok (Num 0)).
Proof.
  apply (dekkers_narrow_bracket (RootFinder_init default_accuracy) 0
           (fun x => Ok x) 0 0 0 0); try reflexivity.
  - lra.
  - rewrite Rabs_zero_width. unfold default_accuracy. cbn [accuracy RootFinder_init]. lra.
Defined.

(** ** RootFinder: configuration *)

(** X7.  [setRootFindMethod] accepts exactly the names "dekkers" and
    "bisection" and raises [NameError] on any other; when it succeeds the
    tolerance is unchanged, a method is set, and a later call decides the
    method alone (the last name wins). *)
Theorem setRootFindMethod_configures :
  forall (self : RootFinder) (name : string),
    (name = "dekkers" ->
     setRootFindMethod self name = Ok (mkRootFinder (accuracy self) (Some dekkers))) /\
    (name = "bisection" ->
     setRootFindMethod self name = Ok (mkRootFinder (accuracy self) (Some bisection))) /\
    (name <> "dekkers" -> name <> "bisection" ->
     setRootFindMethod self name = Raise (NameError "root finder method not available")) /\
    (forall (rf : RootFinder) (name' : string),
        setRootFindMethod self name = Ok rf ->
        accuracy rf = accuracy self /\
        getRootFindMethod rf <> None /\
        setRootFindMethod rf name' = setRootFindMethod self name').
Proof.
  intros self name. unfold setRootFindMethod.
  refine (conj _ (conj _ (conj _ _))).
  - intros ->. reflexivity.
  - intros ->. reflexivity.
  - intros H1 H2. apply String.eqb_neq in H1, H2. now rewrite H1, H2.
  - intros rf name' H.
    destruct (name =? "dekkers")%string;
      [| destruct (name =? "bisection")%string; [| discriminate]];
      injection H as <-; cbn; repeat split; discriminate.
Qed.

Lemma setRootFindMethod_configures_witness :
  setRootFindMethod (RootFinder_init default_accuracy) "newton"
  = Raise (NameError "root finder method not available") /\
  accuracy (mkRootFinder default_accuracy (Some bisection)) = default_accuracy.
Proof.
  pose proof (setRootFindMethod_configures (RootFinder_init default_accuracy) "newton")
    as [_ [_ [Hbad _]]].
  pose proof (setRootFindMethod_configures (RootFinder_init default_accuracy) "bisection")
    as [_ [_ [_ Hok]]].
  split.
  - apply Hbad; discriminate.
  - apply (Hok _ "dekkers"). reflexivity.
Defined.

(** ** Option: which price method is selected *)

(** X8.  [getOptionPrice] returns a price method exactly when the model
    type is "BlackScholes" or "Bachelier" and the option type is "Call" or
    "Put" (compared as they are spelt), and the method returned is the one
    the two names select. *)
Theorem getOptionPrice_selects :
  forall self : Option,
    ((exists price, getOptionPrice self = Ok price) <->
     (getModelType self = "BlackScholes" \/ getModelType self = "Bachelier") /\
     (getOptionType self = "Call" \/ getOptionType self = "Put")) /\
    (forall price, getOptionPrice self = Ok price ->
       (getModelType self = "BlackScholes" /\ getOptionType self = "Call" /\
        price = callOptionPriceBlackScholes self) \/
       (getModelType self = "BlackScholes" /\ getOptionType self = "Put" /\
        price = putOptionPriceBlackScholes self) \/
       (getModelType self = "Bachelier" /\ getOptionType self = "Call" /\
        price = callOptionPriceBachelier self) \/
       (getModelType self = "Bachelier" /\ getOptionType self = "Put" /\
        price = putOptionPriceBachelier self)).
Proof.
  intros self.
  assert (Hsel : forall price, getOptionPrice self = Ok price ->
       (getModelType self = "BlackScholes" /\ getOptionType self = "Call" /\
        price = callOptionPriceBlackScholes self) \/
       (getModelType self = "BlackScholes" /\ getOptionType self = "Put" /\
        price = putOptionPriceBlackScholes self) \/
       (getModelType self = "Bachelier" /\ getOptionType self = "Call" /\
        price = callOptionPriceBachelier self) \/
       (getModelType self = "Bachelier" /\ getOptionType self = "Put" /\
        price = putOptionPriceBachelier self)).
  { intros price. unfold getOptionPrice.
    destruct (String.eqb_spec (getModelType self) "BlackScholes") as [Hm | Hm];
      [| destruct (String.eqb_spec (getModelType self) "Bachelier") as [Hm' | Hm'];
         [| discriminate]];
      (destruct (String.eqb_spec (getOptionType self) "Call") as [Ht | Ht];
       [| destruct (String.eqb_spec (getOptionType self) "Put") as [Ht' | Ht'];
          [| discriminate]]);
      intros H; injection H as <-; tauto. }
  split; [| exact Hsel].
  split.
  - intros [price H]. apply Hsel in H. tauto.
  - intros [Hm Ht]. unfold getOptionPrice.
    destruct Hm as [-> | ->]; destruct Ht as [-> | ->]; cbn; eexists; reflexivity.
Qed.

(** ** Option: when the stored offset is the tabulated one *)

(** X9.  The offset a constructor stores is the one of put-call parity
    over the stored time to expiry exactly when [r * tau = 0] (for a Stock
    with [K <> 0], for a Future with [K <> X]). *)
Theorem parityOffset_agrees_iff :
  forall (V X K tau r : R) (ot mt : string),
    (K <> 0 ->
     (getPutCallParityOffset (Stock_init V X K tau r ot mt)
      = Some (parityOffset_spec (Stock_init V X K tau r ot mt))
      <-> r * tau = 0)) /\
    (K <> X ->
     (getPutCallParityOffset (Future_init V X K tau r ot mt)
      = Some (parityOffset_spec (Future_init V X K tau r ot mt))
      <-> r * tau = 0)).
Proof.
  intros V X K tau r ot mt.
  assert (Hzero : r * tau = 0 -> exp (- r * tau) = exp (- r * (tau / 365))).
  { intros H. f_equal. nra. }
  split; intros HK; split.
  - intros Heq. destruct (Req_dec_T (r * tau) 0) as [H | H]; [exact H |].
    exfalso. exact (Stock_parityOffset_differs V X K tau r ot mt H HK Heq).
  - intros H. unfold parityOffset_spec. fields. unfold np_exp.
    now rewrite (Hzero H).
  - intros Heq. destruct (Req_dec_T (r * tau) 0) as [H | H]; [exact H |].
    exfalso. exact (Future_parityOffset_differs V X K tau r ot mt H HK Heq).
  - intros H. unfold parityOffset_spec. fields. unfold np_exp.
    now rewrite (Hzero H).
Qed.

Lemma parityOffset_agrees_iff_witness :
  getPutCallParityOffset (Stock_init 0 100 100 30 0 "Put" "BlackScholes")
  = Some (parityOffset_spec (Stock_init 0 100 100 30 0 "Put" "BlackScholes"))
  <-> 0 * 30 = 0.
Proof.
  apply (parityOffset_agrees_iff 0 100 100 30 0 "Put" "BlackScholes"). lra.
Defined.

(** ** The root finders see the objective through its values only *)

Lemma bisection_loop_ext (acc : R) (f g : objective) :
  (forall x, f x = g x) ->
  forall (fuel : nat) (a b : R) (c : option R),
    bisection_loop fuel acc f a b c = bisection_loop fuel acc g a b c.
Proof.
  intros Hfg. induction fuel as [| fuel IH]; intros a b c; cbn [bisection_loop].
  - reflexivity.
  - rewrite !Hfg.
    destruct (gtb _ acc); [| reflexivity].
    destruct (g (0.5 * (a + b))); cbn [bind_loop]; [| reflexivity].
    destruct (eqb _ 0); [reflexivity |].
    destruct (g a); cbn [bind_loop]; [| reflexivity].
    destruct (gtb _ 0); apply IH.
Qed.

Lemma dekker_loop_ext (acc : R) (f g : objective) :
  (forall x, f x = g x) ->
  forall (fuel : nat) (s : dekker_state),
    dekker_loop fuel acc f s = dekker_loop fuel acc g s.
Proof.
  intros Hfg. induction fuel as [| fuel IH]; intros s; cbn [dekker_loop].
  - reflexivity.
  - destruct (gtb _ acc); [| reflexivity].
    assert (Hbody : dekker_body f s = dekker_body g s).
    { unfold dekker_body, dekker_step.
      destruct (dekker_pq _) as [p q]. destruct (leb p _).
      - destruct (div p q); cbn [bind]; [| reflexivity]. now rewrite Hfg.
      - now rewrite Hfg. }
    rewrite Hbody. destruct (dekker_body g s); cbn [bind_loop]; [apply IH | reflexivity].
Qed.

Lemma rootFind_apply_ext (m : method) (self : RootFinder) (fuel : nat)
  (f g : objective) (a b : R) :
  (forall x, f x = g x) ->
  rootFind_apply m self fuel f a b = rootFind_apply m self fuel g a b.
Proof.
  intros Hfg. destruct m; cbn [rootFind_apply];
    unfold dekkersMethod, bisectionMethod; rewrite !Hfg.
  - destruct (g a); cbn [bind_loop]; [| reflexivity].
    destruct (g b); cbn [bind_loop]; [| reflexivity].
    destruct (gtb _ 0); [reflexivity |]. now apply dekker_loop_ext.
  - destruct (g a); cbn [bind_loop]; [| reflexivity].
    destruct (g b); cbn [bind_loop]; [| reflexivity].
    destruct (gtb _ 0); [reflexivity |]. now apply bisection_loop_ext.
Qed.

(** The mispricing of a put quoted at [V] is that of the call quoted at
    [V - offset]. *)
Lemma put_objective_is_call_objective (cls : class) (V X K tau r o : R)
  (mt : string) (x : R) :
  let put := setPutCallParityOffset (Option_init cls V X K tau r "Put" mt) o in
  let call_ := setPutCallParityOffset (Option_init cls (V - o) X K tau r "Call" mt) o in
  cls <> Base ->
  modelMisPrice put x = modelMisPrice call_ x.
Proof.
  intros put call_ Hcls. subst put call_. unfold modelMisPrice, getOptionPrice. fields.
  destruct (mt =? "BlackScholes")%string; cbn [String.eqb Ascii.eqb Bool.eqb bind].
  - unfold putOptionPriceBlackScholes, callOptionPriceBlackScholes. fields.
    destruct cls; [contradiction | |];
      repeat match goal with
        | |- context [bind ?c _] => destruct c; cbn [bind add_offset]; [| reflexivity]
        end; f_equal; ring.
  - destruct (mt =? "Bachelier")%string; cbn [bind]; [| reflexivity].
    unfold putOptionPriceBachelier, callOptionPriceBachelier. fields.
    destruct cls; [contradiction | |];
      repeat match goal with
        | |- context [bind ?c _] => destruct c; cbn [bind add_offset]; [| reflexivity]
        end; f_equal; ring.
Qed.

(** X10.  Solving for the volatility of a put quoted at [V] is solving for
    that of the call quoted at [V] minus the stored offset: the two
    mispricings agree at every volatility, so both root finders give the
    same outcome on every bracket, and so does [impliedVol]. *)
Theorem put_solve_is_call_solve :
  forall (V X K tau r : R) (mt : string) (m : method) (rf : RootFinder)
         (fuel : nat) (a b : R),
    let stock_offset := K * exp (- r * tau) - X in
    let future_offset := (K - X) * exp (- r * tau) in
    rootFind_apply m rf fuel (modelMisPrice (Stock_init V X K tau r "Put" mt)) a b
    = rootFind_apply m rf fuel
        (modelMisPrice (Stock_init (V - stock_offset) X K tau r "Call" mt)) a b /\
    rootFind_apply m rf fuel (modelMisPrice (Future_init V X K tau r "Put" mt)) a b
    = rootFind_apply m rf fuel
        (modelMisPrice (Future_init (V - future_offset) X K tau r "Call" mt)) a b /\
    impliedVol (Stock_init V X K tau r "Put" mt) rf fuel
    = impliedVol (Stock_init (V - stock_offset) X K tau r "Call" mt) rf fuel /\
    impliedVol (Future_init V X K tau r "Put" mt) rf fuel
    = impliedVol (Future_init (V - future_offset) X K tau r "Call" mt) rf fuel.
Proof.
  intros V X K tau r mt m rf fuel a b stock_offset future_offset.
  assert (Hs : forall x,
             modelMisPrice (Stock_init V X K tau r "Put" mt) x
             = modelMisPrice (Stock_init (V - stock_offset) X K tau r "Call" mt) x).
  { intros x.
    apply (put_objective_is_call_objective Stock V X K tau r stock_offset mt x).
    discriminate. }
  assert (Hf : forall x,
             modelMisPrice (Future_init V X K tau r "Put" mt) x
             = modelMisPrice (Future_init (V - future_offset) X K tau r "Call" mt) x).
  { intros x.
    apply (put_objective_is_call_objective Future V X K tau r future_offset mt x).
    discriminate. }
  refine (conj _ (conj _ (conj _ _))).
  - now apply rootFind_apply_ext.
  - now apply rootFind_apply_ext.
  - unfold impliedVol. destruct (getRootFindMethod rf); [| reflexivity].
    cbn [rootFind_call]. now apply rootFind_apply_ext.
  - unfold impliedVol. destruct (getRootFindMethod rf); [| reflexivity].
    cbn [rootFind_call]. now apply rootFind_apply_ext.
Qed.

Lemma norm_pdf_0 : norm_pdf 0 = / sqrt (2 * PI).
Proof.
  unfold norm_pdf. replace (- (0 * 0) / 2) with 0 by lra.
  rewrite exp_0. unfold Rdiv. ring.
Qed.

(** X11.  At the money ([X = K]), with a positive day count and
    [sigma <> 0], the Bachelier call and put prices of a Future are both
    [sigma * sqrt(tau / 365) / sqrt(2 pi)], whatever the rate. *)
Theorem Future_Bachelier_at_the_money :
  forall (V K tau r sigma : R) (ot mt : string),
    0 < tau -> sigma <> 0 ->
    callOptionPriceBachelier (Future_init V K K tau r ot mt) sigma
    = Ok (sigma * sqrt (tau / 365) / sqrt (2 * PI)) /\
    putOptionPriceBachelier (Future_init V K K tau r ot mt) sigma
    = Ok (sigma * sqrt (tau / 365) / sqrt (2 * PI)).
Proof.
  intros V K tau r sigma ot mt Htau Hsigma.
  assert (Hcall : callOptionPriceBachelier (Future_init V K K tau r ot mt) sigma
                  = Ok (sigma * sqrt (tau / 365) / sqrt (2 * PI))).
  { rewrite Future_Bachelier_defined by assumption.
    replace ((K - K) / (sigma * sqrt (tau / 365))) with 0 by (unfold Rdiv; ring).
    rewrite norm_pdf_0. f_equal. unfold Rdiv. ring. }
  split; [exact Hcall |].
  unfold putOptionPriceBachelier. fields. 
  change (callOptionPriceBachelier _ sigma)
    with (callOptionPriceBachelier (Future_init V K K tau r ot mt) sigma).
  rewrite Hcall. cbn [bind add_offset]. f_equal. ring.
Qed.

Lemma Future_Bachelier_at_the_money_witness :
  callOptionPriceBachelier (Future_init 0 50 50 90 0 "Call" "Bachelier") 10
  = Ok (10 * sqrt (90 / 365) / sqrt (2 * PI)) /\
  putOptionPriceBachelier (Future_init 0 50 50 90 0 "Call" "Bachelier") 10
  = Ok (10 * sqrt (90 / 365) / sqrt (2 * PI)).
Proof.
  apply (Future_Bachelier_at_the_money 0 50 90 0 10 "Call" "Bachelier"); lra.
Defined.

(** X12.  The Bachelier prices of a Stock depend on [sigma] through
    [sigma ** 2] only: the price at [- sigma] is the price at [sigma]
    (an exception included). *)
Theorem Stock_Bachelier_even_in_sigma :
  forall (V X K tau r sigma : R) (ot mt : string),
    callOptionPriceBachelier (Stock_init V X K tau r ot mt) (- sigma)
    = callOptionPriceBachelier (Stock_init V X K tau r ot mt) sigma /\
    putOptionPriceBachelier (Stock_init V X K tau r ot mt) (- sigma)
    = putOptionPriceBachelier (Stock_init V X K tau r ot mt) sigma.
Proof.
  intros V X K tau r sigma ot mt.
  assert (Hcall : callOptionPriceBachelier (Stock_init V X K tau r ot mt) (- sigma)
                  = callOptionPriceBachelier (Stock_init V X K tau r ot mt) sigma).
  { unfold callOptionPriceBachelier. fields.
    replace ((- sigma) ^ 2) with (sigma ^ 2) by ring. reflexivity. }
  split; [exact Hcall |].
  unfold putOptionPriceBachelier. fields.
  change (callOptionPriceBachelier _ (- sigma))
    with (callOptionPriceBachelier (Stock_init V X K tau r ot mt) (- sigma)).
  now rewrite Hcall.
Qed.

(** ** same_timeseries *)

Lemma nansum_self (ts : list float) : np_nansum (values_sub ts ts) = 0.
Proof.
  unfold values_sub. induction ts as [| x ts IH]; [reflexivity |].
  destruct x; cbn [combine map fst snd float_sub np_nansum]; rewrite IH; lra.
Qed.

(** X13.  [same_timeseries] holds of every series and itself, [nan]
    entries included. *)
Theorem same_timeseries_reflexive :
  forall ts : list float, same_timeseries ts ts = true.
Proof.
  intros ts. unfold same_timeseries. rewrite Nat.eqb_refl, nansum_self.
  apply ltb_true. lra.
Qed.

Lemma nansum_not_above (ts1 ts2 : list float) :
  Forall2 not_above ts1 ts2 -> np_nansum (values_sub ts1 ts2) <= 0.
Proof.
  unfold values_sub. induction 1 as [| x y l1 l2 Hxy _ IH]; cbn; [lra |].
  destruct x, y; cbn in *; lra.
Qed.

Lemma float64_one_sided (v1 v2 : list float) :
  Forall2 not_above v1 v2 -> same_timeseries v1 v2 = true.
Proof.
  intros H. unfold same_timeseries.
  rewrite (Forall2_length H), Nat.eqb_refl.
  apply ltb_true. pose proof (nansum_not_above v1 v2 H). lra.
Qed.

(** X14.  On series of float64 values, [same_timeseries] tests the signed
    sum of the differences: two series of one length are reported the same
    as soon as no entry of the first is above the entry of the second
    (dates where one is [nan] do not count), however far below it is. *)
Theorem same_timeseries_one_sided :
  forall v1 v2 : list float,
    Forall2 not_above v1 v2 ->
    same_timeseries_values (Float64Array v1) (Float64Array v2) = true.
Proof.
  intros v1 v2 H. cbn [same_timeseries_values]. now apply float64_one_sided.
Qed.

Lemma same_timeseries_one_sided_witness :
  same_timeseries_values (Float64Array [Num 1; NaN; Num 3])
                         (Float64Array [Num 100; Num 2; Num 3]) = true.
Proof.
  apply same_timeseries_one_sided.
  repeat constructor; cbn; lra.
Defined.

(** X15.  On series of float64 values, [same_timeseries] is not symmetric:
    for [x + 1e-5 <= y] the one-entry series [x] is the same as [y], and
    [y] is not the same as [x]. *)
Theorem same_timeseries_not_symmetric :
  forall x y : R,
    x + 1e-5 <= y ->
    same_timeseries_values (Float64Array [Num x]) (Float64Array [Num y]) = true /\
    same_timeseries_values (Float64Array [Num y]) (Float64Array [Num x]) = false.
Proof.
  intros x y H. cbn [same_timeseries_values]. unfold same_timeseries; cbn.
  split; [apply ltb_true | apply ltb_false]; lra.
Qed.

Lemma same_timeseries_not_symmetric_witness :
  same_timeseries_values (Float64Array [Num 0]) (Float64Array [Num 1]) = true /\
  same_timeseries_values (Float64Array [Num 1]) (Float64Array [Num 0]) = false.
Proof. apply (same_timeseries_not_symmetric 0 1). lra. Defined.

(** On int64 series the differences wrap around, and neither property
    holds: [-2] is below [2^63 - 1] and is reported different from it;
    [2^63 - 1] is above [-1] and is reported the same. *)
Example same_timeseries_int64_wraps :
  same_timeseries_values (Int64Array [(-2)%Z])
                         (Int64Array [9223372036854775807%Z]) = false /\
  same_timeseries_values (Int64Array [9223372036854775807%Z])
                         (Int64Array [(-1)%Z]) = true.
Proof.
  cbn [same_timeseries_values length Nat.eqb].
  replace (int64_sum (int64_sub [(-2)%Z] [9223372036854775807%Z]))
    with 9223372036854775807%Z by (vm_compute; reflexivity).
  replace (int64_sum (int64_sub [9223372036854775807%Z] [(-1)%Z]))
    with (-9223372036854775808)%Z by (vm_compute; reflexivity).
  split; [apply ltb_false | apply ltb_true]; lra.
Qed.

(** X16.  Differences of opposite sign cancel: two series reported the
    same stay so when one date is moved by [+ d] and another by [- d] in
    the second, however large [d]. *)
Theorem same_timeseries_cancels :
  forall (x y d : R) (ts1 ts2 : list float),
    same_timeseries ts1 ts2 = true ->
    same_timeseries (Num x :: Num y :: ts1) (Num (x + d) :: Num (y - d) :: ts2) = true.
Proof.
  intros x y d ts1 ts2. unfold same_timeseries; cbn [length Nat.eqb].
  destruct (Nat.eqb (length ts1) (length ts2)); [| discriminate].
  unfold ltb. destruct (Rlt_dec (np_nansum (values_sub ts1 ts2)) 1e-5) as [H | H];
    [intros _ | discriminate].
  unfold values_sub in *. cbn [combine map fst snd float_sub np_nansum].
  destruct (Rlt_dec _ _) as [H' | H']; [reflexivity | exfalso; apply H'; lra].
Qed.

Lemma same_timeseries_cancels_witness :
  same_timeseries [Num 0; Num 0] [Num (0 + 1000); Num (0 - 1000)] = true.
Proof.
  apply (same_timeseries_cancels 0 0 1000 [] []).
  unfold same_timeseries; cbn. apply ltb_true. lra.
Defined.

(** Series of different lengths are never the same. *)
Lemma same_timeseries_lengths :
  forall ts1 ts2 : list float,
    length ts1 <> length ts2 -> same_timeseries ts1 ts2 = false.
Proof.
  intros ts1 ts2 H. unfold same_timeseries.
  apply Nat.eqb_neq in H. now rewrite H.
Qed.

(** ** The solve on numpy scalars: an at-the-money Future *)

(** On an objective whose values are all finite, the bisection over
    float64 scalars is the bisection of exact arithmetic. *)
Lemma bisection_loop64_agrees (acc : R) (g : R -> R) :
  forall (fuel : nat) (a b : R) (c : option R),
    bisection_loop64 fuel acc (fun x => Fin (g x)) a b c
    = bisection_loop fuel acc (fun x => Ok (g x)) a b c.
Proof.
  induction fuel as [| fuel IH]; intros a b c;
    cbn [bisection_loop64 bisection_loop bind_loop f64_eq f64_mul f64_gt].
  - reflexivity.
  - destruct (gtb _ acc); [| reflexivity].
    destruct (eqb _ 0); [reflexivity |].
    destruct (gtb _ 0); apply IH.
Qed.

Lemma bisectionMethod64_agrees (self : RootFinder) (fuel : nat) (g : R -> R)
  (a b : R) :
  bisectionMethod64 self fuel (fun x => Fin (g x)) a b
  = bisectionMethod self fuel (fun x => Ok (g x)) a b.
Proof.
  unfold bisectionMethod64, bisectionMethod. cbn [bind_loop f64_mul f64_gt].
  destruct (gtb _ 0); [reflexivity |]. apply bisection_loop64_agrees.
Qed.

(** Where the formula is defined ([tau > 0], [sigma <> 0]) the float64
    price is the price of exact arithmetic. *)
Lemma Future_Bachelier64_agrees (V X K tau r sigma : R) (ot mt : string) :
  0 < tau -> sigma <> 0 ->
  exists v : R,
    callOptionPriceBachelier (Future_init V X K tau r ot mt) sigma = Ok v /\
    Future_callOptionPriceBachelier64 (Future_init V X K tau r ot mt) sigma = Fin v.
Proof.
  intros Htau Hsigma. eexists. split; [now apply Future_Bachelier_defined |].
  pose proof (sqrt_years_pos tau Htau) as Hst.
  unfold Future_callOptionPriceBachelier64. fields.
  cbn [np_sqrt64]. rewrite geb_true by lra.
  cbn [f64_mul f64_div].
  rewrite eqb_false by (apply Rmult_integral_contrapositive_currified; lra).
  reflexivity.
Qed.

(** At the money the price at [sigma = 0] is [0 / 0]: [nan]. *)
Lemma Future_Bachelier64_at_zero (V K tau r : R) (ot mt : string) :
  0 <= tau ->
  Future_callOptionPriceBachelier64 (Future_init V K K tau r ot mt) 0 = Nan.
Proof.
  intros Htau. unfold Future_callOptionPriceBachelier64. fields.
  cbn [np_sqrt64]. rewrite geb_true by lra.
  cbn [f64_mul f64_div].
  rewrite eqb_true by ring.
  unfold f64_scale. rewrite eqb_true by ring. reflexivity.
Qed.

Lemma pow2_pos (n : nat) : 0 < 2 ^ n.
Proof. apply pow_lt. lra. Qed.

Lemma pow2_33 : 2 ^ 33 = 8589934592.
Proof. cbn [pow]. lra. Qed.

Lemma pow2_34 : 2 ^ 34 = 17179869184.
Proof. cbn [pow]. lra. Qed.

Lemma halved_wide (n : nat) : (n <= 33)%nat -> 1e-8 < 100 / 2 ^ n.
Proof.
  intros Hn. pose proof (pow2_pos n) as Hpos.
  assert (Hle : 2 ^ n <= 2 ^ 33) by (apply Rle_pow; [lra | exact Hn]).
  rewrite pow2_33 in Hle.
  apply Rmult_lt_reg_r with (r := 2 ^ n); [exact Hpos |].
  replace (100 / 2 ^ n * 2 ^ n) with 100 by (field; lra). lra.
Qed.

Lemma halved_narrow : 100 / 2 ^ 34 <= 1e-8.
Proof. rewrite pow2_34. lra. Qed.

Lemma halved_next (n : nat) : 0.5 * (0 + 100 / 2 ^ n) = 100 / 2 ^ S n.
Proof.
  pose proof (pow2_pos n). change (2 ^ S n) with (2 * 2 ^ n).
  replace 0.5 with (/ 2) by lra. field. lra.
Qed.

Section AtTheMoney.

Variables V K tau r sigma0 : R.
Hypothesis tau_pos : 0 < tau.

Let kappa : R := sqrt (tau / 365) / sqrt (2 * PI).
Let option_ : Option :=
  Future_init (sigma0 * sqrt (tau / 365) / sqrt (2 * PI)) K K tau r "Call" "Bachelier".

Lemma kappa_pos : 0 < kappa.
Proof.
  unfold kappa. apply Rdiv_lt_0_compat.
  - now apply sqrt_years_pos.
  - apply sqrt_lt_R0. pose proof PI_RGT_0. lra.
Qed.

Lemma at_the_money_misPrice_zero :
  Future_Bachelier_call_misPrice64 option_ 0 = Nan.
Proof.
  unfold Future_Bachelier_call_misPrice64, option_.
  rewrite Future_Bachelier64_at_zero by lra. reflexivity.
Qed.

Lemma at_the_money_misPrice (c : R) :
  c <> 0 ->
  Future_Bachelier_call_misPrice64 option_ c = Fin (kappa * (c - sigma0)).
Proof.
  intros Hc. pose proof (sqrt_years_pos tau tau_pos) as Hst.
  assert (Hpi : 0 < sqrt (2 * PI))
    by (apply sqrt_lt_R0; pose proof PI_RGT_0; lra).
  unfold Future_Bachelier_call_misPrice64, Future_callOptionPriceBachelier64, option_.
  fields. cbn [np_sqrt64]. rewrite geb_true by lra.
  cbn [f64_mul f64_div].
  rewrite eqb_false by (apply Rmult_integral_contrapositive_currified; lra).
  cbn [norm_cdf64 norm_pdf64 f64_mul f64_add f64_sub f64_neg].
  replace ((K - K) / (c * sqrt (tau / 365))) with 0 by (unfold Rdiv; ring).
  rewrite norm_pdf_0. f_equal. unfold kappa. field. lra.
Qed.

(** With [nan] at the lower end, the test of line 50 is false in every
    pass: the upper end is halved 34 times, until it is within the default
    tolerance of 0. *)
Lemma at_the_money_halving :
  (forall n : nat, (n <= 34)%nat -> 100 / 2 ^ n <> sigma0) ->
  forall (k n fuel : nat) (c0 : option R),
    (n + k = 34)%nat ->
    (k = 0%nat -> c0 = Some (100 / 2 ^ 34)) ->
    bisection_loop64 (k + fuel) default_accuracy
      (Future_Bachelier_call_misPrice64 option_) 0 (100 / 2 ^ n) c0
    = Some (Ok (Num (100 / 2 ^ 34))).
Proof.
  intros Hmiss. pose proof kappa_pos as Hk.
  induction k as [| k IH]; intros n fuel c0 Hn Hc0.
  - assert (n = 34)%nat as -> by lia.
    rewrite (Hc0 eq_refl).
    pose proof halved_narrow. pose proof (pow2_pos 34).
    assert (0 < 100 / 2 ^ 34) by (apply Rdiv_lt_0_compat; lra).
    destruct fuel; cbn [Nat.add bisection_loop64];
      rewrite Rminus_0_r, Rabs_pos_eq by lra;
      unfold default_accuracy; now rewrite gtb_false by lra.
  - pose proof (halved_wide n ltac:(lia)) as Hwide.
    pose proof (pow2_pos (S n)) as Hpos.
    assert (Hc : 0 < 100 / 2 ^ S n) by (apply Rdiv_lt_0_compat; lra).
    cbn [Nat.add bisection_loop64].
    rewrite Rminus_0_r, Rabs_pos_eq by lra.
    unfold default_accuracy at 1. rewrite gtb_true by lra.
    rewrite halved_next.
    rewrite at_the_money_misPrice by lra.
    rewrite at_the_money_misPrice_zero.
    cbn [f64_eq f64_mul f64_gt].
    assert (Hne : 100 / 2 ^ S n <> sigma0) by (apply Hmiss; lia).
    rewrite eqb_false by nra.
    apply IH; [lia |]. intros ->. now replace (S n) with 34%nat by lia.
Qed.

End AtTheMoney.

Lemma not_a_halving_of_100 (n : nat) : 100 / 2 ^ n <> 1.
Proof.
  pose proof (pow2_pos n) as Hpos. intros H.
  assert (H100 : 2 ^ n = 100).
  { apply (Rmult_eq_compat_r (2 ^ n)) in H.
    replace (100 / 2 ^ n * 2 ^ n) with 100 in H by (field; lra). lra. }
  destruct (Nat.le_gt_cases n 6) as [Hn | Hn].
  - assert (2 ^ n <= 2 ^ 6) by (apply Rle_pow; [lra | exact Hn]).
    cbn [pow] in *. lra.
  - assert (2 ^ 7 <= 2 ^ n) by (apply Rle_pow; [lra | lia]).
    cbn [pow] in *. lra.
Qed.

(** C2, at an at-the-money Future under Bachelier ([X = K]), solved by
    bisection with the default tolerance: for a volatility [sigma0] that
    is none of the midpoints [100 / 2 ^ n], and [p] the call price at
    [sigma0], the mispricing of the option quoted at [p] is [nan] at the
    lower end 0 of the bracket, so the solve halves the upper end down to
    [100 / 2 ^ 34] (about 5.8e-9) and returns it, further than the
    tolerance from [sigma0]. *)
Theorem at_the_money_round_trip_fails :
  forall (K tau r sigma0 : R) (fuel : nat),
    0 < tau -> 2e-8 < sigma0 ->
    (forall n : nat, (n <= 34)%nat -> 100 / 2 ^ n <> sigma0) ->
    let p := sigma0 * sqrt (tau / 365) / sqrt (2 * PI) in
    let option_ := Future_init p K K tau r "Call" "Bachelier" in
    callOptionPriceBachelier option_ sigma0 = Ok p /\
    Future_callOptionPriceBachelier64 option_ sigma0 = Fin p /\
    bisectionMethod64 (mkRootFinder default_accuracy (Some bisection))
      (34 + fuel) (Future_Bachelier_call_misPrice64 option_) 0 100
    = Some (Ok (Num (100 / 2 ^ 34))) /\
    Rabs (100 / 2 ^ 34 - sigma0) > default_accuracy.
Proof.
  intros K tau r sigma0 fuel Htau Hsigma Hmiss p option_.
  assert (Hcall : callOptionPriceBachelier option_ sigma0 = Ok p).
  { unfold option_, p. rewrite Future_Bachelier_defined by lra.
    replace ((K - K) / (sigma0 * sqrt (tau / 365))) with 0 by (unfold Rdiv; ring).
    rewrite norm_pdf_0. f_equal. unfold Rdiv. ring. }
  refine (conj Hcall (conj _ (conj _ _))).
  - destruct (Future_Bachelier64_agrees p K K tau r sigma0 "Call" "Bachelier")
      as [v [Hv H64]]; [lra | lra |].
    fold option_ in Hv, H64. rewrite Hcall in Hv. injection Hv as <-. exact H64.
  - unfold bisectionMethod64. cbn [accuracy].
    unfold option_, p.
    rewrite at_the_money_misPrice_zero by exact Htau.
    cbn [f64_mul f64_gt].
    pose proof (at_the_money_halving K tau r sigma0 Htau Hmiss 34 0 fuel None
                  eq_refl ltac:(discriminate)) as Hrun.
    replace (100 / 2 ^ 0) with 100 in Hrun by (cbn [pow]; lra).
    exact Hrun.
  - pose proof halved_narrow. pose proof (pow2_pos 34).
    assert (0 < 100 / 2 ^ 34) by (apply Rdiv_lt_0_compat; lra).
    unfold default_accuracy. rewrite Rabs_left by lra. lra.
Qed.

Lemma at_the_money_round_trip_fails_witness :
  bisectionMethod64 (mkRootFinder default_accuracy (Some bisection)) (34 + 0)
    (Future_Bachelier_call_misPrice64
       (Future_init (1 * sqrt (90 / 365) / sqrt (2 * PI)) 50 50 90 0
          "Call" "Bachelier")) 0 100
  = Some (Ok (Num (100 / 2 ^ 34))) /\
  Rabs (100 / 2 ^ 34 - 1) > default_accuracy.
Proof.
  pose proof (at_the_money_round_trip_fails 50 90 0 1 0) as H.
  cbv zeta in H.
  destruct H as [_ [_ H]];
    [lra | lra | intros n _; apply not_a_halving_of_100 | exact H].
Defined.
